(** * Line-targeted ESLint fixer: a shallow embedding of [fix_eslint_errors.py]

    The five rewrite rules of the script are functions from a document
    (a Python [str]) and a 1-based line number to a document.  Each one
    splits the document on the newline character, rewrites one line with
    calls into Python's [re] module, and joins the lines again.

    The development has four layers:

    - the part of CPython's [re] the script relies on: pattern syntax,
      replacement templates, the backtracking matcher, [re.match],
      [re.search] and [re.sub] (CPython 3.7 and later);
    - the line store: [str.split] on a newline and [str.join];
    - the five rule functions and the dispatch of [main], written as the
      source has them;
    - [read_file], [write_file] and the loop and summary of [main], as
      computations on a file system and the printed output.

    Strings are lists of characters whose code points are below 256.  A
    pattern that uses syntax outside the modelled part of [re] yields
    [Unsupported]; an exception of type [re.error] yields [Raised]. *)

From Stdlib Require Import Ascii String ZArith Lia List Bool.
From Stdlib Require Import DecimalString.
From stdpp Require Import base list countable strings gmap sorting.
Import ListNotations.

Local Open Scope char_scope.
Local Open Scope list_scope.

(** * Definitions *)

(** ** Characters and text *)

Abbreviation text := (list ascii).

(** A literal of the source, as text. *)
Definition str (s : string) : text := list_ascii_of_string s.

Definition NL : ascii := "010".

Definition code (c : ascii) : nat := nat_of_ascii c.

Definition between (lo hi n : nat) : bool := (lo <=? n)%nat && (n <=? hi)%nat.

(** [str.isspace] on one code point below 256: what [\s] accepts. *)
Definition is_space (c : ascii) : bool :=
  let n := code c in
  between 9 13 n || between 28 32 n || (n =? 133)%nat || (n =? 160)%nat.

Definition is_ascii_letter (c : ascii) : bool :=
  let n := code c in between 65 90 n || between 97 122 n.

(** A decimal digit: what [\d] accepts below 256. *)
Definition is_digit (c : ascii) : bool := between 48 57 (code c).

(** Alphanumeric code points of the Latin-1 supplement. *)
Definition is_latin1_alnum (n : nat) : bool :=
  (n =? 170)%nat || (n =? 178)%nat || (n =? 179)%nat || (n =? 181)%nat ||
  (n =? 185)%nat || (n =? 186)%nat || between 188 190 n ||
  between 192 214 n || between 216 246 n || between 248 255 n.

(** A word character: alphanumeric or underscore; what [\w] accepts and
    what [\b] looks at. *)
Definition is_word (c : ascii) : bool :=
  is_ascii_letter c || is_digit c || (code c =? 95)%nat || is_latin1_alnum (code c).

(** The characters of a plain identifier: ASCII letters, digits, underscore. *)
Definition ident_char (c : ascii) : bool :=
  is_ascii_letter c || is_digit c || (code c =? 95)%nat.

Definition identifier (s : text) : Prop := forallb ident_char s = true.

Fixpoint text_eqb (a b : text) : bool :=
  match a, b with
  | [], [] => true
  | x :: a', y :: b' => Ascii.eqb x y && text_eqb a' b'
  | _, _ => false
  end.

(** ** Outcomes of a call *)

Inductive re_error :=
| MissingParen        (* missing ), unterminated subpattern *)
| UnbalancedParen     (* unbalanced parenthesis *)
| NothingToRepeat     (* nothing to repeat *)
| MultipleRepeat      (* multiple repeat *)
| BadEscape.          (* bad escape *)

Inductive outcome (A : Type) :=
| Returned (a : A)          (* the call returns normally *)
| Raised (e : re_error)     (* the call raises re.error *)
| Unsupported               (* syntax of re outside the modelled part *)
| OutOfFuel.                (* the bound of a loop was too small *)

Arguments Returned {A} a.
Arguments Raised {A} e.
Arguments Unsupported {A}.
Arguments OutOfFuel {A}.

Definition bind {A B} (m : outcome A) (k : A -> outcome B) : outcome B :=
  match m with
  | Returned a => k a
  | Raised e => Raised e
  | Unsupported => Unsupported
  | OutOfFuel => OutOfFuel
  end.

Notation "x <- m ;; k" := (bind m (fun x => k))
  (at level 100, m at next level, right associativity).

(** ** Pattern syntax *)

Inductive category := CSpace | CWord | CDigit.

Inductive quantifier := QStar | QPlus | QOpt.

Inductive regex :=
| Eps                                        (* the empty sequence *)
| Lit (c : ascii)                            (* one literal character *)
| Dot                                        (* . *)
| Cat (k : category) (negated : bool)        (* \s \w \d and \S \W \D *)
| Bound                                      (* \b *)
| Seq (r1 r2 : regex)
| Alt (r1 r2 : regex)                        (* r1|r2, r1 tried first *)
| Repeat (q : quantifier) (r : regex)        (* greedy r*, r+, r? *)
| Group (r : regex).                         (* (r) *)

Definition mk_seq (items : list regex) : regex := fold_right Seq Eps items.

Fixpoint mk_alt (first : regex) (others : list regex) : regex :=
  match others with
  | [] => first
  | r :: rs => Alt first (mk_alt r rs)
  end.

(** The parser keeps, for the (sub)pattern being read, the alternatives
    already closed by a [|] and the items of the current sequence, both
    most recent first. *)
Record frame := Frame { alts : list regex; items : list regex }.

Definition empty_frame : frame := Frame [] [].

Definition push (r : regex) (f : frame) : frame := Frame (alts f) (r :: items f).

Definition close_frame (f : frame) : regex :=
  match rev (mk_seq (rev (items f)) :: alts f) with
  | [] => Eps
  | r :: rs => mk_alt r rs
  end.

Definition quantifier_of (c : ascii) : option quantifier :=
  match c with
  | "*" => Some QStar
  | "+" => Some QPlus
  | "?" => Some QOpt
  | _ => None
  end.

Definition escape_of (c : ascii) : outcome regex :=
  match c with
  | "b" => Returned Bound
  | "s" => Returned (Cat CSpace false)
  | "S" => Returned (Cat CSpace true)
  | "w" => Returned (Cat CWord false)
  | "W" => Returned (Cat CWord true)
  | "d" => Returned (Cat CDigit false)
  | "D" => Returned (Cat CDigit true)
  | _ => if is_ascii_letter c || is_digit c then Unsupported else Returned (Lit c)
  end.

(** A [?] after a quantifier makes it lazy, a [+] possessive. *)
Definition modifier_follows (next : text) : bool :=
  match next with
  | "?" :: _ => true
  | "+" :: _ => true
  | _ => false
  end.

(** Applying a quantifier to the last item of the current sequence. *)
Definition repeat_last (q : quantifier) (f : frame) (next : text) : outcome frame :=
  match items f with
  | [] => Raised NothingToRepeat
  | Bound :: _ => Raised NothingToRepeat
  | Repeat _ _ :: _ => Raised MultipleRepeat
  | it :: its =>
      if modifier_follows next then Unsupported
      else Returned (Frame (alts f) (Repeat q it :: its))
  end.

(** One pass over the pattern, left to right, with the enclosing groups
    on a stack. *)
Fixpoint parse_loop (cur : frame) (stack : list frame) (p : text) : outcome regex :=
  match p with
  | [] =>
      match stack with
      | [] => Returned (close_frame cur)
      | _ :: _ => Raised MissingParen
      end
  | "|" :: p' =>
      parse_loop (Frame (mk_seq (rev (items cur)) :: alts cur) []) stack p'
  | "(" :: p' =>
      match p' with
      | "?" :: _ => Unsupported
      | _ => parse_loop empty_frame (cur :: stack) p'
      end
  | ")" :: p' =>
      match stack with
      | [] => Raised UnbalancedParen
      | outer :: stack' => parse_loop (push (Group (close_frame cur)) outer) stack' p'
      end
  | "\" :: p' =>
      match p' with
      | [] => Raised BadEscape
      | c :: p'' =>
          match escape_of c with
          | Returned r => parse_loop (push r cur) stack p''
          | Raised e => Raised e
          | Unsupported => Unsupported
          | OutOfFuel => OutOfFuel
          end
      end
  | "." :: p' => parse_loop (push Dot cur) stack p'
  | "[" :: _ => Unsupported
  | "{" :: _ => Unsupported
  | "^" :: _ => Unsupported
  | "$" :: _ => Unsupported
  | c :: p' =>
      match quantifier_of c with
      | Some q =>
          match repeat_last q cur p' with
          | Returned cur' => parse_loop cur' stack p'
          | Raised e => Raised e
          | Unsupported => Unsupported
          | OutOfFuel => OutOfFuel
          end
      | None => parse_loop (push (Lit c) cur) stack p'
      end
  end.

(** [re.compile]. *)
Definition compile (pattern : text) : outcome regex :=
  parse_loop empty_frame [] pattern.

(** The replacement template of [re.sub]: backslash escapes are
    processed, everything else is literal. *)
Definition template_escape (c : ascii) : outcome text :=
  match c with
  | "a" => Returned ["007"]
  | "b" => Returned ["008"]
  | "f" => Returned ["012"]
  | "n" => Returned ["010"]
  | "r" => Returned ["013"]
  | "t" => Returned ["009"]
  | "v" => Returned ["011"]
  | "\" => Returned ["\"]
  | "g" => Unsupported                (* group reference *)
  | _ =>
      if is_digit c then Unsupported  (* group reference or octal escape *)
      else if is_ascii_letter c then Raised BadEscape
      else Returned ["\"; c]
  end.

Fixpoint expand_template (t : text) : outcome text :=
  match t with
  | [] => Returned []
  | "\" :: t' =>
      match t' with
      | [] => Raised BadEscape
      | c :: t'' =>
          e <- template_escape c ;;
          rest <- expand_template t'' ;;
          Returned (e ++ rest)
      end
  | c :: t' =>
      rest <- expand_template t' ;;
      Returned (c :: rest)
  end.

(** ** The backtracking matcher

    A position in the subject is the text that remains together with the
    character just before it ([None] at the start of the subject), which
    is what [\b] needs.  [ends r st] lists the positions at which a match
    of [r] started at [st] can end, in the order in which the
    backtracking engine finds them: the head is the match it reports. *)

Definition state : Type := option ascii * text.

Definition remaining (st : state) : nat := length (snd st).

Definition word_before (st : state) : bool :=
  match fst st with
  | Some c => is_word c
  | None => false
  end.

Definition word_after (st : state) : bool :=
  match snd st with
  | c :: _ => is_word c
  | [] => false
  end.

Definition at_boundary (st : state) : bool := xorb (word_before st) (word_after st).

Definition in_category (k : category) (c : ascii) : bool :=
  match k with
  | CSpace => is_space c
  | CWord => is_word c
  | CDigit => is_digit c
  end.

(** One character accepted by a test. *)
Definition take_char (ok : ascii -> bool) (st : state) : list state :=
  match snd st with
  | c :: u => if ok c then [(Some c, u)] else []
  | [] => []
  end.

(** A greedy loop: another round of the body is tried first, and only
    where the last round consumed something; then the loop is left. *)
Fixpoint star_loop (body : state -> list state) (fuel : nat) (st : state) : list state :=
  match fuel with
  | O => [st]
  | S fuel' =>
      flat_map (fun st' =>
                  if (remaining st' <? remaining st)%nat
                  then star_loop body fuel' st'
                  else [st'])
               (body st) ++ [st]
  end.

Fixpoint ends (r : regex) (st : state) : list state :=
  match r with
  | Eps => [st]
  | Lit c => take_char (Ascii.eqb c) st
  | Dot => take_char (fun c => negb (Ascii.eqb c NL)) st
  | Cat k negated => take_char (fun c => xorb negated (in_category k c)) st
  | Bound => if at_boundary st then [st] else []
  | Seq r1 r2 => flat_map (ends r2) (ends r1 st)
  | Alt r1 r2 => ends r1 st ++ ends r2 st
  | Repeat QStar r1 => star_loop (ends r1) (S (remaining st)) st
  | Repeat QPlus r1 =>
      flat_map (fun st' => star_loop (ends r1) (S (remaining st')) st') (ends r1 st)
  | Repeat QOpt r1 => ends r1 st ++ [st]
  | Group r1 => ends r1 st
  end.

(** The first end the engine accepts; after an empty match, [re.sub]
    asks for a match that is not empty at the same start. *)
Definition pick (must_advance : bool) (st : state) (l : list state) : option state :=
  find (fun st' => negb must_advance || (remaining st' <? remaining st)%nat) l.

(** Leftmost match at or after a position: the characters skipped and
    the position where the match ends. *)
Fixpoint search_from (r : regex) (before : option ascii) (u : text) (must_advance : bool)
  : option (text * state) :=
  match pick must_advance (before, u) (ends r (before, u)) with
  | Some st' => Some ([], st')
  | None =>
      match u with
      | [] => None
      | c :: u' =>
          match search_from r (Some c) u' false with
          | Some (skipped, st') => Some (c :: skipped, st')
          | None => None
          end
      end
  end.

(** The loop of [re.sub] with an expanded replacement: [n] matches were
    replaced so far, [count = 0] means no limit.  The loop ends when the
    limit is reached or when no match is left; the next search starts
    where the last match ended. *)
Fixpoint sub_loop (r : regex) (repl : text) (count : nat) (fuel : nat) (n : nat)
    (before : option ascii) (u : text) (must_advance : bool) : outcome text :=
  match fuel with
  | O => OutOfFuel
  | S fuel' =>
      if negb (count =? 0)%nat && (count <=? n)%nat then Returned u
      else
        match search_from r before u must_advance with
        | None => Returned u
        | Some (skipped, (before', u')) =>
            let empty := (length u' =? length u - length skipped)%nat in
            rest <- sub_loop r repl count fuel' (S n) before' u' empty ;;
            Returned (skipped ++ repl ++ rest)
        end
  end.

(** [re.match(pattern, string)]: a match at the start of the string. *)
Definition re_match (pattern s : text) : outcome (option state) :=
  r <- compile pattern ;;
  Returned (hd_error (ends r (None, s))).

(** [re.search(pattern, string)]. *)
Definition re_search (pattern s : text) : outcome (option (text * state)) :=
  r <- compile pattern ;;
  Returned (search_from r None s false).

(** [re.sub(pattern, repl, string, count)]. *)
Definition re_sub (pattern repl s : text) (count : nat) : outcome text :=
  r <- compile pattern ;;
  t <- expand_template repl ;;
  sub_loop r t count (2 * length s + 2) 0 None s false.

(** ** The line store *)

(** [content.split('\n')]: never empty, the empty document has one
    empty line. *)
Fixpoint split_lines (content : text) : list text :=
  match content with
  | [] => [[]]
  | c :: rest =>
      if Ascii.eqb c NL then [] :: split_lines rest
      else
        match split_lines rest with
        | l :: ls => (c :: l) :: ls
        | [] => [[c]]
        end
  end.

(** ['\n'.join(lines)]. *)
Fixpoint join_lines (lines : list text) : text :=
  match lines with
  | [] => []
  | [l] => l
  | l :: ls => l ++ NL :: join_lines ls
  end.

(** The guard [0 <= line_num - 1 < len(lines)]. *)
Definition in_bounds (line_num : Z) (lines : list text) : bool :=
  (0 <=? line_num - 1)%Z && (line_num - 1 <? Z.of_nat (length lines))%Z.

(** [lines[line_num - 1]] under the guard. *)
Definition line_at (lines : list text) (line_num : Z) : text :=
  nth (Z.to_nat (line_num - 1)) lines [].

(** [lines[line_num - 1] = line] under the guard. *)
Definition set_line (lines : list text) (line_num : Z) (line : text) : list text :=
  <[Z.to_nat (line_num - 1) := line]> lines.

(** ** The rewrite rules *)

(** The loop [for pattern, replacement in patterns: if re.search(...):
    lines[line_num - 1] = re.sub(...); break], shared by the two rules
    that stop at the first sub-pattern found in the line.  Patterns are
    compiled one after the other, as the loop reaches them. *)
Fixpoint for_patterns (count : nat) (patterns : list (text * text)) (line : text)
    (line_num : Z) (lines : list text) : outcome (list text) :=
  match patterns with
  | [] => Returned lines
  | (pattern, replacement) :: more =>
      found <- re_search pattern line ;;
      match found with
      | Some _ =>
          new <- re_sub pattern replacement line count ;;
          Returned (set_line lines line_num new)
      | None => for_patterns count more line line_num lines
      end
  end.

Definition request_patterns : list (text * text) :=
  [ (str "\brequest\s*:", str "_request:");
    (str "\brequest\s*\)", str "_request)");
    (str "\brequest\s*,", str "_request,") ].

(** [fix_unused_request_param(content, line_num)]: [re.sub] is called
    without a count. *)
Definition fix_unused_request_param (content : text) (line_num : Z) : outcome text :=
  let lines := split_lines content in
  if in_bounds line_num lines then
    let line := line_at lines line_num in
    lines' <- for_patterns 0 request_patterns line line_num lines ;;
    Returned (join_lines lines')
  else Returned (join_lines lines).

(** The patterns of [fix_unused_var]: the name is spliced into pattern
    and replacement as it is. *)
Definition var_patterns (var_name : text) : list (text * text) :=
  [ (str "\bconst\s+" ++ var_name ++ str "\b", str "const _" ++ var_name);
    (str "\blet\s+" ++ var_name ++ str "\b", str "let _" ++ var_name);
    (str "\b" ++ var_name ++ str "\s*:", str "_" ++ var_name ++ str ":");
    (str "\b" ++ var_name ++ str "\s*\)", str "_" ++ var_name ++ str ")");
    (str "\b" ++ var_name ++ str "\s*,", str "_" ++ var_name ++ str ",");
    (str "=\s*" ++ var_name ++ str "\b", str "= _" ++ var_name) ].

(** [fix_unused_var(content, line_num, var_name)]: [re.sub] is called
    with [count=1]. *)
Definition fix_unused_var (content : text) (line_num : Z) (var_name : text) : outcome text :=
  let lines := split_lines content in
  if in_bounds line_num lines then
    let line := line_at lines line_num in
    lines' <- for_patterns 1 (var_patterns var_name) line line_num lines ;;
    Returned (join_lines lines')
  else Returned (join_lines lines).

(** [fix_explicit_any(content, line_num)]. *)
Definition fix_explicit_any (content : text) (line_num : Z) : outcome text :=
  let lines := split_lines content in
  if in_bounds line_num lines then
    let line := line_at lines line_num in
    line <- re_sub (str ":\s*any\b") (str ": unknown") line 0 ;;
    line <- re_sub (str "<any>") (str "<unknown>") line 0 ;;
    line <- re_sub (str "\bas\s+any\b") (str "as unknown") line 0 ;;
    Returned (join_lines (set_line lines line_num line))
  else Returned (join_lines lines).

(** [fix_empty_object_type(content, line_num)]. *)
Definition fix_empty_object_type (content : text) (line_num : Z) : outcome text :=
  let lines := split_lines content in
  if in_bounds line_num lines then
    let line := line_at lines line_num in
    line <- re_sub (str ":\s*\{\s*\}") (str ": unknown") line 0 ;;
    line <- re_sub (str "<\{\s*\}>") (str "<unknown>") line 0 ;;
    Returned (join_lines (set_line lines line_num line))
  else Returned (join_lines lines).

(** [remove_unused_import(content, line_num, import_name)]. *)
Definition remove_unused_import (content : text) (line_num : Z) (import_name : text)
  : outcome text :=
  let lines := split_lines content in
  if in_bounds line_num lines then
    let line := line_at lines line_num in
    single <- re_match (str "import\s+\{\s*" ++ import_name ++ str "\s*\}") line ;;
    match single with
    | Some _ => Returned (join_lines (set_line lines line_num []))
    | None =>
        line <- re_sub (str ",?\s*" ++ import_name ++ str "\s*,?") [] line 0 ;;
        line <- re_sub (str ",\s*,") (str ",") line 0 ;;
        line <- re_sub (str "\{\s*,") (str "{") line 0 ;;
        line <- re_sub (str ",\s*\}") (str "}") line 0 ;;
        Returned (join_lines (set_line lines line_num line))
    end
  else Returned (join_lines lines).

(** The dispatch on [fix_type] in [main]: an unknown type leaves the
    content as it was read. *)
Definition apply (fix_type : text) (content : text) (line_num : Z) (detail : text)
  : outcome text :=
  if text_eqb fix_type (str "unused_param") then fix_unused_request_param content line_num
  else if text_eqb fix_type (str "unused_var") then fix_unused_var content line_num detail
  else if text_eqb fix_type (str "explicit_any") then fix_explicit_any content line_num
  else if text_eqb fix_type (str "empty_object") then fix_empty_object_type content line_num
  else if text_eqb fix_type (str "unused_import") then remove_unused_import content line_num detail
  else Returned content.

(** The lines of a document, and its line count. *)
Definition line_count (content : text) : nat := length (split_lines content).

(** The [k]-th line of a document, 1-based; [None] outside it. *)
Definition doc_line (content : text) (k : Z) : option text :=
  if (1 <=? k)%Z then split_lines content !! Z.to_nat (k - 1) else None.

(** ** Predicates on lines, patterns and outcomes *)

Definition no_newline (l : text) : Prop := Forall (fun c => c <> NL) l.

Definition no_backslash (t : text) : Prop := Forall (fun c => c <> "\") t.

(** A pattern or a template is usable when it compiles, or expands to a
    text without a newline. *)
Definition compiles (pattern : text) : Prop := exists r, compile pattern = Returned r.

Definition expands (repl : text) : Prop :=
  exists t, expand_template repl = Returned t /\ no_newline t.

(** The shape of every successful call in bounds: the document with the
    target line replaced by a line without a newline. *)
Definition rewrites_target (content : text) (line_num : Z) (o : outcome text) : Prop :=
  exists new, no_newline new /\
    o = Returned (join_lines (set_line (split_lines content) line_num new)).

(** The two fix types whose rule reads the detail. *)
Definition uses_detail (fix_type : text) : bool :=
  text_eqb fix_type (str "unused_var") || text_eqb fix_type (str "unused_import").

(** ** The rewrite of the target line, as a function of the line *)

(** A pattern that [re.search] does not find in the line. *)
Definition unmatched (line pattern : text) : Prop := re_search pattern line = Returned None.

(** The line that [for_patterns] assigns, or the line itself. *)
Fixpoint first_match_rule (count : nat) (patterns : list (text * text)) (line : text)
  : outcome text :=
  match patterns with
  | [] => Returned line
  | (pattern, replacement) :: more =>
      found <- re_search pattern line ;;
      match found with
      | Some _ => re_sub pattern replacement line count
      | None => first_match_rule count more line
      end
  end.

Definition explicit_any_rule (line : text) : outcome text :=
  line <- re_sub (str ":\s*any\b") (str ": unknown") line 0 ;;
  line <- re_sub (str "<any>") (str "<unknown>") line 0 ;;
  re_sub (str "\bas\s+any\b") (str "as unknown") line 0.

Definition empty_object_rule (line : text) : outcome text :=
  line <- re_sub (str ":\s*\{\s*\}") (str ": unknown") line 0 ;;
  re_sub (str "<\{\s*\}>") (str "<unknown>") line 0.

Definition unused_import_rule (import_name line : text) : outcome text :=
  single <- re_match (str "import\s+\{\s*" ++ import_name ++ str "\s*\}") line ;;
  match single with
  | Some _ => Returned []
  | None =>
      line <- re_sub (str ",?\s*" ++ import_name ++ str "\s*,?") [] line 0 ;;
      line <- re_sub (str ",\s*,") (str ",") line 0 ;;
      line <- re_sub (str "\{\s*,") (str "{") line 0 ;;
      re_sub (str ",\s*\}") (str "}") line 0
  end.

(** A rule function in bounds: the rule on the target line, then the
    assignment and the join. *)
Definition on_target (content : text) (line_num : Z) (rule : text -> outcome text)
  : outcome text :=
  new <- rule (line_at (split_lines content) line_num) ;;
  Returned (join_lines (set_line (split_lines content) line_num new)).

(** A rewrite of a known target line, seen from the document: the
    result is the document with that line replaced, the target line of
    the result is the new line, and no line is added or lost. *)
Definition replaces_target (content : text) (line_num : Z) (new : text)
    (o : outcome text) : Prop :=
  o = Returned (join_lines (set_line (split_lines content) line_num new)) /\
  (forall out, o = Returned out ->
     doc_line out line_num = Some new /\ line_count out = line_count content).

(** ** Patterns without choice

    The patterns of explicit_any and empty_object are sequences of
    literal characters, runs of whitespace and word boundaries, and every
    run of whitespace is followed by a literal that is not whitespace.
    The engine then has nothing to backtrack into: a match from a
    position is unique, and the greedy run takes all the whitespace. *)

Inductive item :=
| ILit (c : ascii)            (* one literal character *)
| ISpaces (at_least_one : bool)   (* \s+ or \s* *)
| IBound.                     (* \b *)

Definition item_regex (it : item) : regex :=
  match it with
  | ILit c => Lit c
  | ISpaces true => Repeat QPlus (Cat CSpace false)
  | ISpaces false => Repeat QStar (Cat CSpace false)
  | IBound => Bound
  end.

Definition items_regex (l : list item) : regex := mk_seq (map item_regex l).

Fixpoint well_formed (l : list item) : bool :=
  match l with
  | [] => true
  | ISpaces _ :: l' =>
      match l' with
      | ILit d :: _ => negb (is_space d) && well_formed l'
      | _ => false
      end
  | _ :: l' => well_formed l'
  end.

Fixpoint skip_spaces (before : option ascii) (u : text) : state :=
  match u with
  | x :: u' => if is_space x then skip_spaces (Some x) u' else (before, u)
  | [] => (before, [])
  end.

(** The match of a sequence of items from a position, if there is one. *)
Fixpoint dmatch (l : list item) (st : state) : option state :=
  match l with
  | [] => Some st
  | ILit c :: l' =>
      match snd st with
      | x :: u => if Ascii.eqb c x then dmatch l' (Some x, u) else None
      | [] => None
      end
  | ISpaces false :: l' => dmatch l' (skip_spaces (fst st) (snd st))
  | ISpaces true :: l' =>
      match snd st with
      | x :: u => if is_space x then dmatch l' (skip_spaces (Some x) u) else None
      | [] => None
      end
  | IBound :: l' => if at_boundary st then dmatch l' st else None
  end.

Definition option_list {A} (o : option A) : list A :=
  match o with
  | Some a => [a]
  | None => []
  end.

(** The first literal of a pattern, where only word boundaries come
    before it. *)
Fixpoint head_lit (l : list item) : option ascii :=
  match l with
  | ILit c :: _ => Some c
  | IBound :: l' => head_lit l'
  | _ => None
  end.

Definition is_bound (it : item) : bool :=
  match it with
  | IBound => true
  | _ => false
  end.

(** The last literal of a pattern, where only word boundaries come
    after it. *)
Fixpoint last_lit (l : list item) : option ascii :=
  match l with
  | [] => None
  | it :: l' =>
      match last_lit l' with
      | Some d => Some d
      | None =>
          match it with
          | ILit c => if forallb is_bound l' then Some c else None
          | _ => None
          end
      end
  end.

(** Whether the pattern matches somewhere at or after a position. *)
Fixpoint found (l : list item) (before : option ascii) (u : text) : bool :=
  match dmatch l (before, u) with
  | Some _ => true
  | None =>
      match u with
      | [] => false
      | x :: u' => found l (Some x) u'
      end
  end.

(** What [re.sub] without a count computes for such a pattern: at each
    position, a match is replaced and the scan goes on after it;
    otherwise one character is copied. *)
Fixpoint scan (l : list item) (repl : text) (fuel : nat) (before : option ascii) (u : text)
  : text :=
  match fuel with
  | O => u
  | S fuel' =>
      match dmatch l (before, u) with
      | Some (before', u') => repl ++ scan l repl fuel' before' u'
      | None =>
          match u with
          | [] => []
          | x :: u' => x :: scan l repl fuel' (Some x) u'
          end
      end
  end.

Definition wordness (before : option ascii) : bool :=
  match before with
  | Some c => is_word c
  | None => false
  end.

(** A pattern without a word boundary. *)
Definition bound_free (l : list item) : bool := forallb (fun it => negb (is_bound it)) l.

(** Two characters before a position that a pattern cannot tell apart:
    both word characters or both not, or no word boundary in the
    pattern. *)
Definition alike (l : list item) (b1 b2 : option ascii) : Prop :=
  bound_free l = true \/ wordness b1 = wordness b2.

(** *** Failing inside a known prefix *)

(** The whitespace at the head of a known prefix; [None] where the
    prefix ends before the whitespace does. *)
Fixpoint skip_known (wb : bool) (pre : text) : option (bool * text) :=
  match pre with
  | [] => None
  | x :: pre' => if is_space x then skip_known (is_word x) pre' else Some (wb, pre)
  end.

(** [fails_within l wb pre]: a match of [l] from a position whose text
    starts with [pre], after a character of wordness [wb], fails before
    it leaves [pre]. *)
Fixpoint fails_within (l : list item) (wb : bool) (pre : text) : bool :=
  match l with
  | [] => false
  | ILit c :: l' =>
      match pre with
      | [] => false
      | x :: pre' => if Ascii.eqb c x then fails_within l' (is_word x) pre' else true
      end
  | ISpaces true :: l' =>
      match pre with
      | [] => false
      | x :: pre' =>
          if is_space x then
            match skip_known (is_word x) pre' with
            | Some (wb', rest) => fails_within l' wb' rest
            | None => false
            end
          else true
      end
  | ISpaces false :: l' =>
      match skip_known wb pre with
      | Some (wb', rest) => fails_within l' wb' rest
      | None => false
      end
  | IBound :: l' =>
      match pre with
      | [] => false
      | x :: _ => if xorb wb (is_word x) then fails_within l' wb pre else true
      end
  end.

(** No match of [l] starts inside the prefix. *)
Fixpoint no_start (l : list item) (wb : bool) (pre : text) : bool :=
  match pre with
  | [] => true
  | x :: pre' => fails_within l wb pre && no_start l (is_word x) pre'
  end.

(** Every tail of [l] that starts with a literal fails inside [pre]. *)
Fixpoint lits_fail (l : list item) (pre : text) : bool :=
  match l with
  | [] => true
  | it :: l' =>
      match it with
      | ILit _ => fails_within l false pre
      | _ => true
      end && lits_fail l' pre
  end.

(** The conditions of the section, as checks that compute. *)
Definition step_ok (Q : list item) (repl : text) : bool :=
  well_formed Q &&
  match head_lit Q, last_lit Q, repl with
  | Some q0, Some ql, r0 :: _ =>
      negb (is_space q0) && negb (is_space r0) && Bool.eqb (is_word q0) (is_word r0)
  | _, _, _ => false
  end.

Definition clears (P Q : list item) (repl : text) : bool :=
  lits_fail P repl && no_start P true repl && no_start P false repl &&
  (bound_free P || Bool.eqb (wordness (last repl)) (wordness (last_lit Q))).

(** The patterns of explicit_any and empty_object. *)
Definition any_annotation : list item :=
  [ILit ":"; ISpaces false; ILit "a"; ILit "n"; ILit "y"; IBound].
Definition any_generic : list item :=
  [ILit "<"; ILit "a"; ILit "n"; ILit "y"; ILit ">"].
Definition any_cast : list item :=
  [IBound; ILit "a"; ILit "s"; ISpaces true; ILit "a"; ILit "n"; ILit "y"; IBound].
Definition empty_annotation : list item :=
  [ILit ":"; ISpaces false; ILit "{"; ISpaces false; ILit "}"].
Definition empty_generic : list item :=
  [ILit "<"; ILit "{"; ISpaces false; ILit "}"; ILit ">"].

(** ** Occurrences of a word in a line *)

(** Whether [w] is at the head of [u]. *)
Fixpoint starts_with (w u : text) : bool :=
  match w, u with
  | [], _ => true
  | c :: w', x :: u' => Ascii.eqb c x && starts_with w' u'
  | _ :: _, [] => false
  end.

(** Whether [w] occurs somewhere in [u]. *)
Fixpoint occurs (w u : text) : bool :=
  starts_with w u ||
  match u with
  | [] => false
  | _ :: u' => occurs w u'
  end.

(** The patterns of unused_param and unused_var, as items. *)
Definition lits (w : text) : list item := map ILit w.

Definition name_then (name : text) (closing : ascii) : list item :=
  IBound :: lits name ++ [ISpaces false; ILit closing].

Definition keyword_name (keyword name : text) : list item :=
  IBound :: lits keyword ++ ISpaces true :: lits name ++ [IBound].

Definition assigned_name (name : text) : list item :=
  ILit "=" :: ISpaces false :: lits name ++ [IBound].

Definition var_items (name : text) : list (list item) :=
  [ keyword_name (str "const") name; keyword_name (str "let") name;
    name_then name ":"; name_then name ")"; name_then name ",";
    assigned_name name ].

Definition all_space (ws : text) : Prop := Forall (fun c => is_space c = true) ws.

(** A text that does not go on with a word character. *)
Definition ends_word (rest : text) : Prop :=
  match rest with
  | [] => True
  | c :: _ => is_word c = false
  end.


(** ** Lines on which a first-match rule settles *)


(** The patterns of unused_param, as items. *)
Definition request_items : list (list item) :=
  [ name_then (str "request") ":"; name_then (str "request") ")";
    name_then (str "request") "," ].





(** ** Files, and what the script prints

    [main] reads and writes files and prints to the standard output.
    The state of the program is the file system and the output so far.

    Under a path the file system has nothing, or a file.  A file has
    its bytes, which are the UTF-8 form of a text or are not UTF-8; it
    lets itself be opened for reading or not (no permission, a
    directory); and a write to it succeeds, is refused when the file is
    opened, or breaks off after the file was opened and so emptied (no
    space left).  For some paths the system does not answer at all: a
    name that is too long, a directory on the way that may not be
    searched.  How a path answers does not change during a run, no
    other program changes the files meanwhile, and the standard output
    takes what is printed.  Creating a file is outside the model. *)

Definition CR : ascii := "013".

Definition no_cr (s : text) : Prop := Forall (fun c => c <> CR) s.

(** Reading in text mode with the default [newline=None]: a carriage
    return followed by a newline, and a carriage return alone, are read
    as one newline. *)
Fixpoint universal_newlines (s : text) : text :=
  match s with
  | [] => []
  | c :: s' =>
      if Ascii.eqb c CR then
        NL :: match s' with
              | c' :: s'' =>
                  if Ascii.eqb c' NL then universal_newlines s''
                  else universal_newlines s'
              | [] => []
              end
      else c :: universal_newlines s'
  end.

(** What a write to a file does. *)
Inductive writing :=
| Writes                        (* [open] and [write] succeed *)
| Refused                       (* [open] raises, the file stays as it is *)
| Breaks (remains : option text).  (* [open] empties the file, [write] or [close]
                                   raises; the file holds [remains] afterwards *)

(** [stored] is the text whose UTF-8 form the bytes are, [None] for
    bytes that are not UTF-8. *)
Record file := File { readable : bool; writable : writing; stored : option text }.

(** A file from which [open] and [read] give a text. *)
Definition can_read (f : file) : Prop := readable f = true /\ is_Some (stored f).

(** A call of [print].  The two messages of the exception handlers end
    with the text of the exception, which is the system's. *)
Inductive message :=
| Line (s : text)                   (* print(s) *)
| ErrorReading (file_path : text)   (* print(f"Error reading {file_path}: {e}") *)
| ErrorWriting (file_path : text).  (* print(f"Error writing {file_path}: {e}") *)

(** [out_of_reach] holds the paths for which a system call raises an
    [OSError] that [Path.exists] does not take for an answer. *)
Record world := World {
  files : gmap text file;
  out_of_reach : gset text;
  printed : list message
}.

(** The exceptions that [main] does not catch. *)
Inductive exception :=
| ReError (e : re_error)   (* [re.error], from a rule *)
| OsError (path : text).   (* [OSError], from [Path.exists] *)

(** How a computation on the state ends; the state is kept in each
    case. *)
Inductive ending (A : Type) :=
| Returns (a : A)
| Raises (e : exception)
| Outside.                 (* the model of [re] has no answer, or a file
                              would be created *)

Arguments Returns {A} a.
Arguments Raises {A} e.
Arguments Outside {A}.

Definition prog (A : Type) : Type := world -> ending A * world.

Definition ret {A} (a : A) : prog A := fun w => (Returns a, w).

Definition bind_prog {A B} (m : prog A) (k : A -> prog B) : prog B :=
  fun w =>
    match m w with
    | (Returns a, w') => k a w'
    | (Raises e, w') => (Raises e, w')
    | (Outside, w') => (Outside, w')
    end.

Notation "x <~ m ;; k" := (bind_prog m (fun x => k))
  (at level 100, m at next level, right associativity).

(** A call of a function without effects. *)
Definition call {A} (o : outcome A) : prog A :=
  fun w =>
    match o with
    | Returned a => (Returns a, w)
    | Raised e => (Raises (ReError e), w)
    | Unsupported => (Outside, w)
    | OutOfFuel => (Outside, w)
    end.

(** The state after a message was printed. *)
Definition say (m : message) (w : world) : world :=
  World (files w) (out_of_reach w) (printed w ++ [m]).

Definition print (m : message) : prog unit := fun w => (Returns tt, say m w).

(** The file under a path gets a new content. *)
Definition put (file_path : text) (f : file) (content : option text) (w : world) : world :=
  World (<[file_path := File (readable f) (writable f) content]> (files w))
        (out_of_reach w) (printed w).

(** [full_path.exists()]: whether there is something under the path;
    an [OSError] other than those that mean that there is nothing is
    raised. *)
Definition path_exists (full_path : text) : prog bool :=
  fun w =>
    if bool_decide (full_path ∈ out_of_reach w) then (Raises (OsError full_path), w)
    else (Returns (bool_decide (is_Some (files w !! full_path))), w).

(** What [open(file_path, 'r', encoding='utf-8')] and [f.read()] give,
    [None] where one of them raises. *)
Definition text_of (file_path : text) (w : world) : option text :=
  if bool_decide (file_path ∈ out_of_reach w) then None
  else
    match files w !! file_path with
    | Some f =>
        match readable f, stored f with
        | true, Some t => Some (universal_newlines t)
        | _, _ => None
        end
    | None => None
    end.

(** [read_file(file_path)]: the text of the file, or [None] after a
    message, when [open] or [read] raises. *)
Definition read_file (file_path : text) : prog (option text) :=
  fun w =>
    match text_of file_path w with
    | Some content => ret (Some content) w
    | None => (_ <~ print (ErrorReading file_path) ;; ret None) w
    end.

(** [write_file(file_path, content)]: [True] after the file holds
    [content] (on a POSIX system a newline is written as it is), [False]
    after a message when [open], [write] or the closing of the file
    raises. *)
Definition write_file (file_path content : text) : prog bool :=
  fun w =>
    if bool_decide (file_path ∈ out_of_reach w) then
      (_ <~ print (ErrorWriting file_path) ;; ret false) w
    else
      match files w !! file_path with
      | Some f =>
          match writable f with
          | Writes => (Returns true, put file_path f (Some content) w)
          | Refused => (_ <~ print (ErrorWriting file_path) ;; ret false) w
          | Breaks remains =>
              (_ <~ print (ErrorWriting file_path) ;; ret false) (put file_path f remains w)
          end
      | None => (Outside, w)
      end.

(** ** The catalogue and [main] *)

(** An entry [(file, line, type, detail)] of [fixes]. *)
Record entry := Entry { file_path : text; line_num : Z; fix_type : text; detail : text }.

(** [str] of an [int]. *)
Definition decimal (n : Z) : text := str (NilZero.string_of_int (Z.to_int n)).

(** [f"Fixing {file_path}:{line_num} ({fix_type}: {detail})"] *)
Definition fixing (e : entry) : text :=
  str "Fixing " ++ file_path e ++ str ":" ++ decimal (line_num e) ++ str " ("
  ++ fix_type e ++ str ": " ++ detail e ++ str ")".

Section Loop.

(** [base_dir / file_path], as a string. *)
Variable locate : text -> text.

(** The body of the loop of [main], for one entry. *)
Definition process_fix (e : entry) (files_processed : gset text) : prog (gset text) :=
  let full_path := locate (file_path e) in
  found <~ path_exists full_path ;;
  if negb found then
    _ <~ print (Line (str "File not found: " ++ full_path)) ;;
    ret files_processed
  else
    content <~ read_file full_path ;;
    match content with
    | None => ret files_processed
    | Some content =>
        _ <~ print (Line (fixing e)) ;;
        content <~ call (apply (fix_type e) content (line_num e) (detail e)) ;;
        written <~ write_file full_path content ;;
        ret (if written then {[file_path e]} ∪ files_processed else files_processed)
    end.

(** [for file_path, line_num, fix_type, detail in fixes: ...] *)
Fixpoint process (fixes : list entry) (files_processed : gset text) : prog (gset text) :=
  match fixes with
  | [] => ret files_processed
  | e :: more =>
      files_processed <~ process_fix e files_processed ;;
      process more files_processed
  end.

End Loop.

(** The order of [str], by code points. *)
Fixpoint text_leb (a b : text) : bool :=
  match a, b with
  | [], _ => true
  | _ :: _, [] => false
  | x :: a', y :: b' =>
      (code x <? code y)%nat || ((code x =? code y)%nat && text_leb a' b')
  end.

Definition text_le (a b : text) : Prop := text_leb a b = true.

#[global] Instance text_le_dec (a b : text) : Decision (text_le a b).
Proof. unfold text_le. apply _. Defined.

(** [sorted(files_processed)] *)
Definition sorted (files_processed : gset text) : list text :=
  merge_sort text_le (elements files_processed).

(** [for file in ...: print(f"  - {file}")] *)
Fixpoint print_files (names : list text) : prog unit :=
  match names with
  | [] => ret tt
  | file :: more => _ <~ print (Line (str "  - " ++ file)) ;; print_files more
  end.

(** The two statements after the loop. *)
Definition summary (files_processed : gset text) : prog unit :=
  _ <~ print (Line (NL :: str "Processed "
                    ++ decimal (Z.of_nat (size files_processed)) ++ str " files")) ;;
  print_files (sorted files_processed).

(** The loop and the summary, for a catalogue. *)
Definition run (locate : text -> text) (fixes : list entry) : prog unit :=
  files_processed <~ process locate fixes ∅ ;;
  summary files_processed.

Definition base_dir : text := str "/Users/tomergalansky/Desktop/loom-app".

(** [base_dir / file_path] for a relative path in normal form, as those
    of the catalogue are. *)
Definition full_path (file_path : text) : text := base_dir ++ str "/" ++ file_path.

Definition fixes : list entry :=
  [ Entry (str "src/app/api/admin/maintenance/route.ts") 156 (str "unused_param") (str "request");
    Entry (str "src/app/api/admin/system-health/route.ts") 84 (str "unused_var") (str "data");
    Entry (str "src/app/api/admin/system-health/route.ts") 212 (str "unused_var") (str "data");
    Entry (str "src/app/api/admin/system-health/route.ts") 226 (str "unused_var") (str "data");
    Entry (str "src/app/api/admin/system-health/route.ts") 240 (str "unused_var") (str "data");
    Entry (str "src/app/api/admin/system-health/route.ts") 251 (str "unused_param") (str "request");
    Entry (str "src/app/api/admin/system-health/route.ts") 258 (str "unused_param") (str "request");
    Entry (str "src/app/api/admin/system-health/route.ts") 265 (str "unused_param") (str "request") ].

Definition main : prog unit := run full_path fixes.

(** The fixes of a catalogue for one path, applied one after the other
    as [main] does between a read and a write. *)
Fixpoint apply_all (fixes : list entry) (content : text) : outcome text :=
  match fixes with
  | [] => Returned content
  | e :: more =>
      content <- apply (fix_type e) content (line_num e) (detail e) ;;
      apply_all more content
  end.

(** A catalogue whose details are identifiers where a rule reads them. *)
Definition plain_details (fixes : list entry) : Prop :=
  Forall (fun e => uses_detail (fix_type e) = true -> identifier (detail e)) fixes.

(** What a run may do to the file under a path: nothing, or, where the
    file can be read and opened for writing and the run has a reason
    to, give it a new content. *)
Definition kept_or_rewritten (before after : option file) (reason : Prop) : Prop :=
  match before, after with
  | None, None => True
  | Some f, Some f' =>
      readable f' = readable f /\ writable f' = writable f /\
      (stored f' <> stored f -> can_read f /\ writable f <> Refused /\ reason)
  | _, _ => False
  end.

(** The entries of a catalogue for the file under a path. *)
Definition entries_for (locate : text -> text) (p : text) (fixes : list entry)
  : list entry :=
  filter (fun e => locate (file_path e) = p) fixes.

(** The file under a path after a run of a catalogue, given the file
    [f] before it.  Where the catalogue has entries for the path and the
    file can be read: if the writes succeed, the fixes for the path,
    composed, on the text as it is read; if they break off, what a
    broken write leaves.  Otherwise [f]. *)
Definition rewritten_by (locate : text -> text) (fixes : list entry) (p : text)
    (f : file) (after : option file) : Prop :=
  match entries_for locate p fixes, readable f, stored f with
  | e :: es, true, Some t =>
      match writable f with
      | Writes =>
          exists out,
            apply_all (e :: es) (universal_newlines t) = Returned out /\
            after = Some (File true Writes (Some out))
      | Breaks remains => after = Some (File true (Breaks remains) remains)
      | Refused => after = Some f
      end
  | _, _, _ => after = Some f
  end.

(** The lines of a file after a run, given the file [f] before it: the
    file is as it was; or its writes break off; or it holds its text as
    it is read, with as many lines, without a carriage return, and with
    every line as it is read but those that an entry of the catalogue
    names for the path. *)
Definition lines_kept (locate : text -> text) (fixes : list entry) (p : text)
    (f f' : file) : Prop :=
  f' = f \/
  (exists remains, writable f = Breaks remains) \/
  (exists t out,
     stored f = Some t /\ f' = File true Writes (Some out) /\ no_cr out /\
     line_count out = line_count (universal_newlines t) /\
     forall k, (forall e, e ∈ fixes -> locate (file_path e) = p -> line_num e <> k) ->
               doc_line out k = doc_line (universal_newlines t) k).

(** A path under which there is a file that can be read and written. *)
Definition usable (w : world) (p : text) : Prop :=
  exists f, files w !! p = Some f /\ can_read f /\ writable f = Writes.

(** The paths of a catalogue for which the system answers. *)
Definition in_reach (locate : text -> text) (fixes : list entry) (w : world) : Prop :=
  forall e, e ∈ fixes -> locate (file_path e) ∉ out_of_reach w.

(** ** A small directory, for examples

    Three files: [a.ts] with a carriage return before its newline,
    [b.ts], and [c.ts] that cannot be written. *)

Definition example_dir (file_path : text) : text := str "/app/" ++ file_path.

Definition example_world : world :=
  World (<[example_dir (str "a.ts") :=
             File true Writes (Some (str "function f(request: R) {" ++ [CR; NL]
                                     ++ str "  return 1 as any;"))]>
        (<[example_dir (str "b.ts") := File true Writes (Some (str "const x = 1;"))]>
        (<[example_dir (str "c.ts") := File true Refused (Some (str "let data = 2;"))]> ∅)))
    ∅ [].

Definition example_fixes : list entry :=
  [ Entry (str "a.ts") 1 (str "unused_param") (str "request");
    Entry (str "c.ts") 1 (str "unused_var") (str "data");
    Entry (str "d.ts") 1 (str "unused_var") (str "data");
    Entry (str "a.ts") 2 (str "explicit_any") [] ].

(** The files of the example after its fixes. *)
Definition example_files : gmap text file :=
  <[example_dir (str "a.ts") :=
      File true Writes (Some (str "function f(_request: R) {" ++ [NL]
                              ++ str "  return 1 as unknown;"))]>
  (<[example_dir (str "b.ts") := File true Writes (Some (str "const x = 1;"))]>
  (<[example_dir (str "c.ts") := File true Refused (Some (str "let data = 2;"))]> ∅)).

Definition example_log : list message :=
  [ Line (str "Fixing a.ts:1 (unused_param: request)");
    Line (str "Fixing c.ts:1 (unused_var: data)");
    ErrorWriting (str "/app/c.ts");
    Line (str "File not found: /app/d.ts");
    Line (str "Fixing a.ts:2 (explicit_any: )") ].

(** The example with a name that is too long among its paths, and with
    a file whose writes break off and leave it empty. *)
Definition example_faults : world :=
  World (<[example_dir (str "a.ts") :=
             File true (Breaks (Some [])) (Some (str "function f(request: R) {"))]> ∅)
    {[ example_dir (str "d.ts") ]} [].
(** * Lemmas *)

(** ** The line store: splitting and joining are inverse *)

Lemma split_lines_not_nil content : split_lines content <> [].
Proof.
  destruct content as [|c rest]; simpl; [discriminate|].
  destruct (Ascii.eqb c NL); [discriminate|].
  destruct (split_lines rest); discriminate.
Qed.

Lemma join_lines_cons_char c l ls :
  join_lines ((c :: l) :: ls) = c :: join_lines (l :: ls).
Proof. destruct ls; reflexivity. Qed.

Lemma join_split content : join_lines (split_lines content) = content.
Proof.
  induction content as [|c rest IH]; simpl; [reflexivity|].
  destruct (Ascii.eqb c NL) eqn:E.
  - apply Ascii.eqb_eq in E. subst c.
    pose proof (split_lines_not_nil rest) as Hne.
    destruct (split_lines rest) as [|l ls]; [congruence|].
    simpl in *. now rewrite IH.
  - pose proof (split_lines_not_nil rest) as Hne.
    destruct (split_lines rest) as [|l ls]; [congruence|].
    rewrite join_lines_cons_char. now rewrite IH.
Qed.

Lemma split_lines_no_newline content : Forall no_newline (split_lines content).
Proof.
  induction content as [|c rest IH]; simpl.
  - repeat constructor.
  - destruct (Ascii.eqb c NL) eqn:E.
    + constructor; [constructor | exact IH].
    + destruct (split_lines rest) as [|l ls].
      * repeat constructor. intros ->. now rewrite Ascii.eqb_refl in E.
      * inversion IH; subst. constructor; [|assumption].
        constructor; [|assumption]. intros ->. now rewrite Ascii.eqb_refl in E.
Qed.

Lemma split_lines_one l : no_newline l -> split_lines l = [l].
Proof.
  induction 1 as [|c l Hc _ IH]; simpl; [reflexivity|].
  destruct (Ascii.eqb c NL) eqn:E.
  - apply Ascii.eqb_eq in E. contradiction.
  - now rewrite IH.
Qed.

Lemma split_lines_app l rest :
  no_newline l -> split_lines (l ++ NL :: rest) = l :: split_lines rest.
Proof.
  induction 1 as [|c l Hc _ IH]; simpl; [reflexivity|].
  destruct (Ascii.eqb c NL) eqn:E.
  - apply Ascii.eqb_eq in E. contradiction.
  - now rewrite IH.
Qed.

Lemma split_join lines :
  lines <> [] -> Forall no_newline lines -> split_lines (join_lines lines) = lines.
Proof.
  intros Hne H. induction H as [|l ls Hl Hls IH]; [congruence|].
  destruct ls as [|l2 ls'].
  - simpl. now apply split_lines_one.
  - change (join_lines (l :: l2 :: ls')) with (l ++ NL :: join_lines (l2 :: ls')).
    rewrite split_lines_app by assumption. now rewrite IH.
Qed.

(** ** The matcher only moves forward *)

Lemma take_char_suffix ok st st' :
  In st' (take_char ok st) -> snd st' `suffix_of` snd st.
Proof.
  unfold take_char. destruct (snd st) as [|c u] eqn:E; simpl; [tauto|].
  destruct (ok c); simpl; [|tauto].
  intros [<-|[]]. simpl. now apply suffix_cons_r.
Qed.

Lemma star_loop_suffix body :
  (forall st st', In st' (body st) -> snd st' `suffix_of` snd st) ->
  forall fuel st st', In st' (star_loop body fuel st) -> snd st' `suffix_of` snd st.
Proof.
  intros Hbody. induction fuel as [|fuel IH]; intros st st'; simpl.
  - intros [<-|[]]. reflexivity.
  - rewrite in_app_iff, in_flat_map. intros [(mid & Hmid & Hin)|[<-|[]]].
    + apply Hbody in Hmid.
      destruct (remaining mid <? remaining st)%nat.
      * apply IH in Hin. now transitivity (snd mid).
      * destruct Hin as [<-|[]]. assumption.
    + reflexivity.
Qed.

Lemma ends_suffix r : forall st st', In st' (ends r st) -> snd st' `suffix_of` snd st.
Proof.
  induction r as [|c| |k neg| |r1 IH1 r2 IH2|r1 IH1 r2 IH2|q r1 IH1|r1 IH1];
    intros st st'; simpl.
  - intros [<-|[]]. reflexivity.
  - apply take_char_suffix.
  - apply take_char_suffix.
  - apply take_char_suffix.
  - destruct (at_boundary st); simpl; [|tauto]. intros [<-|[]]. reflexivity.
  - rewrite in_flat_map. intros (mid & Hmid & Hin).
    transitivity (snd mid); eauto.
  - rewrite in_app_iff. intros [H|H]; eauto.
  - destruct q.
    + intros H. apply (star_loop_suffix _ IH1 (S (remaining st))). exact H.
    + rewrite in_flat_map. intros (mid & Hmid & Hin).
      transitivity (snd mid); [|eauto].
      apply (star_loop_suffix _ IH1 (S (remaining mid))). exact Hin.
    + rewrite in_app_iff. intros [H|[<-|[]]]; [eauto|reflexivity].
  - apply IH1.
Qed.

Lemma pick_spec must_advance st l st' :
  pick must_advance st l = Some st' ->
  In st' l /\ (must_advance = true -> (remaining st' < remaining st)%nat).
Proof.
  unfold pick. intros H. apply find_some in H as [Hin Hp]. split; [assumption|].
  intros ->. simpl in Hp. now apply Nat.ltb_lt in Hp.
Qed.

(** What a successful search returns: the subject is the skipped part,
    then the match, then what remains; the match is not empty where the
    caller asked so. *)
Lemma search_from_spec r : forall u before must_advance skipped st',
  search_from r before u must_advance = Some (skipped, st') ->
  exists m, u = skipped ++ m ++ snd st' /\
            (must_advance = true -> skipped = [] -> m <> []).
Proof.
  induction u as [|c u IH]; intros before adv skipped st'; simpl.
  - destruct (pick adv (before, []) (ends r (before, []))) as [st1|] eqn:P; [|discriminate].
    intros [= <- <-]. apply pick_spec in P as [Hin Hadv].
    apply ends_suffix in Hin as [m Hm]. simpl in Hm.
    exists m. split; [exact Hm|]. intros Ha _ ->. specialize (Hadv Ha).
    unfold remaining in Hadv. simpl in *. subst. simpl in Hadv. lia.
  - destruct (pick adv (before, c :: u) (ends r (before, c :: u))) as [st1|] eqn:P.
    + intros [= <- <-]. apply pick_spec in P as [Hin Hadv].
      apply ends_suffix in Hin as [m Hm]. simpl in Hm.
      exists m. split; [exact Hm|]. intros Ha _ ->. specialize (Hadv Ha).
      unfold remaining in Hadv. simpl in *. rewrite <- Hm in Hadv. simpl in Hadv. lia.
    + destruct (search_from r (Some c) u false) as [[sk st1]|] eqn:S; [|discriminate].
      intros [= <- <-]. apply IH in S as (m & Hm & _).
      exists m. split; [simpl; now f_equal|]. discriminate.
Qed.

Lemma flat_map_ext_In {A B} (f g : A -> list B) l :
  (forall a, In a l -> f a = g a) -> flat_map f l = flat_map g l.
Proof.
  intros H. rewrite !flat_map_concat_map. f_equal. now apply map_ext_in.
Qed.

(** The bound of the greedy loop is never reached: a round is repeated
    only after it consumed a character, so more fuel than characters
    left changes nothing. *)
Lemma star_loop_fuel body :
  (forall st st', In st' (body st) -> snd st' `suffix_of` snd st) ->
  forall fuel st, (remaining st < fuel)%nat ->
    star_loop body (S fuel) st = star_loop body fuel st.
Proof.
  intros Hbody. induction fuel as [|fuel IH]; intros st Hlt; [lia|].
  change (star_loop body (S (S fuel)) st) with
    (flat_map (fun st' => if (remaining st' <? remaining st)%nat
                          then star_loop body (S fuel) st' else [st']) (body st) ++ [st]).
  change (star_loop body (S fuel) st) with
    (flat_map (fun st' => if (remaining st' <? remaining st)%nat
                          then star_loop body fuel st' else [st']) (body st) ++ [st]).
  f_equal. apply flat_map_ext_In. intros mid Hmid.
  destruct (remaining mid <? remaining st)%nat eqn:E; [|reflexivity].
  apply Nat.ltb_lt in E. apply IH. lia.
Qed.

(** ** [re.sub]: termination and what the result is made of *)

Lemma search_from_lengths r u before must_advance skipped st' :
  search_from r before u must_advance = Some (skipped, st') ->
  (length skipped + remaining st' <= length u)%nat /\
  (must_advance = true -> (remaining st' < length u)%nat).
Proof.
  intros H. apply search_from_spec in H as (m & -> & Hadv). unfold remaining.
  rewrite !length_app. split; [lia|].
  intros Ha. specialize (Hadv Ha).
  destruct skipped; simpl; [|lia].
  destruct m; simpl; [exfalso; now apply Hadv|lia].
Qed.

Lemma sub_loop_total r repl count : forall fuel n before (u : text) (must_advance : bool),
  (2 * length u + (if must_advance then 0 else 1) < fuel)%nat ->
  exists t, sub_loop r repl count fuel n before u must_advance = Returned t.
Proof.
  induction fuel as [|fuel IH]; intros n before u adv Hfuel; [lia|]. simpl.
  destruct (negb (count =? 0)%nat && (count <=? n)%nat); [eauto|].
  destruct (search_from r before u adv) as [[skipped [before' u']]|] eqn:S; [|eauto].
  apply search_from_lengths in S as [Hlen Hadv]. unfold remaining in *. simpl in *.
  destruct (IH (S n) before' u' (length u' =? length u - length skipped)%nat) as [t Ht].
  - destruct (length u' =? length u - length skipped)%nat eqn:E.
    + apply Nat.eqb_eq in E. destruct adv; [pose proof (Hadv Logic.eq_refl)|]; lia.
    + apply Nat.eqb_neq in E. destruct adv; [pose proof (Hadv Logic.eq_refl)|]; lia.
  - rewrite Ht. simpl. eauto.
Qed.

Lemma re_sub_total pattern repl s count r t :
  compile pattern = Returned r -> expand_template repl = Returned t ->
  exists out, re_sub pattern repl s count = Returned out.
Proof.
  intros Hr Ht. unfold re_sub. rewrite Hr, Ht. simpl.
  apply sub_loop_total. lia.
Qed.

(** Every character of the result comes from the subject or from the
    replacement. *)
Lemma sub_loop_Forall (P : ascii -> Prop) r repl count :
  Forall P repl ->
  forall fuel n before u must_advance t,
    Forall P u ->
    sub_loop r repl count fuel n before u must_advance = Returned t ->
    Forall P t.
Proof.
  intros Hrepl. induction fuel as [|fuel IH]; intros n before u adv t Hu; simpl; [discriminate|].
  destruct (negb (count =? 0)%nat && (count <=? n)%nat); [now intros [= <-]|].
  destruct (search_from r before u adv) as [[skipped [before' u']]|] eqn:S;
    [|now intros [= <-]].
  apply search_from_spec in S as (m & -> & _). simpl in *.
  apply Forall_app in Hu as [Hsk Hu]. apply Forall_app in Hu as [_ Hu'].
  destruct (sub_loop r repl count fuel (S n) before' u' _) as [rest| | |] eqn:R;
    simpl; try discriminate.
  intros [= <-]. apply IH in R; [|assumption].
  apply Forall_app. split; [assumption|]. apply Forall_app. now split.
Qed.

(** A subject without a match is returned as it is. *)
Lemma sub_loop_no_match r repl count fuel n before u must_advance :
  search_from r before u must_advance = None ->
  sub_loop r repl count (S fuel) n before u must_advance = Returned u.
Proof.
  intros H. simpl. rewrite H. now destruct (negb (count =? 0)%nat && (count <=? n)%nat).
Qed.

(** ** Patterns and templates built from an identifier *)

Lemma ident_char_literal c cur stack p :
  ident_char c = true ->
  parse_loop cur stack (c :: p) = parse_loop (push (Lit c) cur) stack p.
Proof.
  destruct c as [[] [] [] [] [] [] [] []]; intros H;
    try discriminate H; reflexivity.
Qed.

Lemma ident_char_not_backslash c : ident_char c = true -> c <> "\".
Proof. intros H ->. discriminate H. Qed.

Lemma ident_char_not_newline c : ident_char c = true -> c <> NL.
Proof. intros H ->. discriminate H. Qed.

Lemma identifier_cons c v : identifier (c :: v) <-> ident_char c = true /\ identifier v.
Proof. unfold identifier. simpl. apply andb_true_iff. Qed.

(** The characters of an identifier are read as literals, one item each. *)
Lemma parse_loop_identifier v : forall cur stack rest,
  identifier v ->
  parse_loop cur stack (v ++ rest)
  = parse_loop (Frame (alts cur) (rev (map Lit v) ++ items cur)) stack rest.
Proof.
  induction v as [|c v IH]; intros cur stack rest Hv.
  - now destruct cur.
  - apply identifier_cons in Hv as [Hc Hv]. simpl app.
    rewrite (ident_char_literal c) by assumption.
    rewrite IH by assumption. simpl. now rewrite <- app_assoc.
Qed.

Lemma identifier_no_newline v : identifier v -> no_newline v.
Proof.
  induction v as [|c v IH]; intros Hv; [constructor|].
  apply identifier_cons in Hv as [Hc Hv].
  constructor; [now apply ident_char_not_newline | now apply IH].
Qed.

Lemma identifier_no_backslash v : identifier v -> no_backslash v.
Proof.
  induction v as [|c v IH]; intros Hv; [constructor|].
  apply identifier_cons in Hv as [Hc Hv].
  constructor; [now apply ident_char_not_backslash | now apply IH].
Qed.

(** A template without a backslash stands for itself. *)
Lemma expand_template_plain t : no_backslash t -> expand_template t = Returned t.
Proof.
  induction 1 as [|c t Hc _ IH]; [reflexivity|].
  destruct c as [[] [] [] [] [] [] [] []]; try (simpl; rewrite IH; reflexivity).
  now contradiction Hc.
Qed.

Lemma expands_plain t : no_backslash t -> no_newline t -> expands t.
Proof. intros Hb Hn. exists t. split; [now apply expand_template_plain|assumption]. Qed.

Lemma expands_str_ident pre v post :
  identifier v ->
  no_backslash (str pre) -> no_newline (str pre) ->
  no_backslash (str post) -> no_newline (str post) ->
  expands (str pre ++ v ++ str post).
Proof.
  intros Hv Hb1 Hn1 Hb2 Hn2.
  pose proof (identifier_no_backslash _ Hv) as Hb.
  pose proof (identifier_no_newline _ Hv) as Hn.
  apply expands_plain.
  - unfold no_backslash in *. rewrite !Forall_app. tauto.
  - unfold no_newline in *. rewrite !Forall_app. tauto.
Qed.

Lemma modifier_follows_identifier v rest :
  identifier v -> modifier_follows rest = false -> modifier_follows (v ++ rest) = false.
Proof.
  destruct v as [|c v]; intros Hv Hrest; [assumption|].
  apply identifier_cons in Hv as [Hc _].
  destruct c as [[] [] [] [] [] [] [] []]; try discriminate Hc; reflexivity.
Qed.

Ltac plain_literal :=
  unfold no_backslash, no_newline; cbn;
  repeat (constructor; [discriminate|]); constructor.

(** Compiling a pattern of the source into which an identifier was
    spliced: the literal part before the name is read by computation,
    the name by [parse_loop_identifier], the rest by computation. *)
Ltac compile_spliced Hv :=
  unfold compiles, compile; cbn [str list_ascii_of_string app];
  repeat first
    [ progress simpl
    | progress unfold repeat_last, push, empty_frame
    | rewrite (modifier_follows_identifier _ _ Hv) by reflexivity
    | rewrite (parse_loop_identifier _ _ _ _ Hv) ];
  eexists; reflexivity.

Lemma var_patterns_usable var_name :
  identifier var_name ->
  Forall (fun pr => compiles (fst pr) /\ expands (snd pr)) (var_patterns var_name).
Proof.
  intros Hv. unfold var_patterns.
  repeat (constructor; [split|]); try constructor; cbn [fst snd];
    try (compile_spliced Hv).
  all: try (rewrite <- (app_nil_r var_name) at 1; change [] with (str EmptyString);
           apply expands_str_ident; [assumption|plain_literal..]).
  all: try (apply expands_str_ident; [assumption|plain_literal..]).
Qed.

Lemma import_patterns_usable import_name :
  identifier import_name ->
  compiles (str "import\s+\{\s*" ++ import_name ++ str "\s*\}") /\
  compiles (str ",?\s*" ++ import_name ++ str "\s*,?").
Proof. intros Hv. split; compile_spliced Hv. Qed.

Ltac compiles_literal := unfold compiles; eexists; vm_compute; reflexivity.
Ltac expands_literal := apply expands_plain; plain_literal.

Lemma request_patterns_usable :
  Forall (fun pr => compiles (fst pr) /\ expands (snd pr)) request_patterns.
Proof.
  unfold request_patterns.
  repeat (constructor; [split; [compiles_literal|expands_literal]|]). constructor.
Qed.

(** ** What a rule returns *)

(** [re.sub] on a line: it returns, and puts no newline into the line. *)
Lemma re_sub_line pattern repl s count :
  compiles pattern -> expands repl -> no_newline s ->
  exists out, re_sub pattern repl s count = Returned out /\ no_newline out.
Proof.
  intros [r Hr] (t & Ht & Hnl) Hs. unfold re_sub. rewrite Hr, Ht. simpl.
  destruct (sub_loop_total r t count (2 * length s + 2) 0 None s false) as [out Hout];
    [lia|].
  exists out. split; [assumption|].
  eapply sub_loop_Forall; [exact Hnl|exact Hs|exact Hout].
Qed.

Lemma line_at_lookup lines line_num :
  in_bounds line_num lines = true ->
  lines !! Z.to_nat (line_num - 1) = Some (line_at lines line_num).
Proof.
  unfold in_bounds, line_at. intros H. apply andb_true_iff in H as [H0 H1].
  apply Z.leb_le in H0. apply Z.ltb_lt in H1.
  rewrite nth_lookup.
  destruct (lookup_lt_is_Some_2 lines (Z.to_nat (line_num - 1))) as [l Hl]; [lia|].
  now rewrite Hl.
Qed.

Lemma set_line_same lines line_num :
  in_bounds line_num lines = true ->
  set_line lines line_num (line_at lines line_num) = lines.
Proof. intros H. apply list_insert_id. now apply line_at_lookup. Qed.

Lemma line_at_no_newline content line_num :
  in_bounds line_num (split_lines content) = true ->
  no_newline (line_at (split_lines content) line_num).
Proof.
  intros H. apply line_at_lookup in H.
  eapply Forall_lookup_1; [apply split_lines_no_newline|exact H].
Qed.

Lemma for_patterns_line count patterns line line_num lines :
  Forall (fun pr => compiles (fst pr) /\ expands (snd pr)) patterns ->
  no_newline line ->
  set_line lines line_num line = lines ->
  exists new, no_newline new /\
    for_patterns count patterns line line_num lines = Returned (set_line lines line_num new).
Proof.
  intros Hpats Hline Hsame. induction Hpats as [|[pattern repl] more [Hc He] _ IH]; simpl.
  - exists line. now rewrite Hsame.
  - simpl in Hc, He. unfold re_search. destruct Hc as [r Hr]. rewrite Hr. simpl.
    destruct (search_from r None line false).
    + destruct (re_sub_line pattern repl line count) as (new & Hnew & Hnl);
        [now exists r|assumption..|].
      rewrite Hnew. simpl. now exists new.
    + exact IH.
Qed.

Lemma fix_unused_request_param_in_bounds content line_num :
  in_bounds line_num (split_lines content) = true ->
  rewrites_target content line_num (fix_unused_request_param content line_num).
Proof.
  intros Hb. unfold fix_unused_request_param. rewrite Hb.
  destruct (for_patterns_line 0 request_patterns
              (line_at (split_lines content) line_num) line_num (split_lines content))
    as (new & Hnl & Hnew);
    [apply request_patterns_usable | now apply line_at_no_newline
     | now apply set_line_same |].
  rewrite Hnew. simpl. now exists new.
Qed.

Lemma fix_unused_var_in_bounds content line_num var_name :
  identifier var_name ->
  in_bounds line_num (split_lines content) = true ->
  rewrites_target content line_num (fix_unused_var content line_num var_name).
Proof.
  intros Hv Hb. unfold fix_unused_var. rewrite Hb.
  destruct (for_patterns_line 1 (var_patterns var_name)
              (line_at (split_lines content) line_num) line_num (split_lines content))
    as (new & Hnl & Hnew);
    [now apply var_patterns_usable | now apply line_at_no_newline
     | now apply set_line_same |].
  rewrite Hnew. simpl. now exists new.
Qed.

(** One [line = re.sub(...)] step of a rule that applies every
    substitution. *)
Ltac sub_step pattern repl line Hline :=
  let new := fresh "line" in
  let Hnew := fresh "Hsub" in
  let Hnl := fresh "Hnl" in
  destruct (re_sub_line pattern repl line 0) as (new & Hnew & Hnl);
  [first [compiles_literal | assumption] | expands_literal | exact Hline |];
  rewrite Hnew; cbn [bind].

Lemma fix_explicit_any_in_bounds content line_num :
  in_bounds line_num (split_lines content) = true ->
  rewrites_target content line_num (fix_explicit_any content line_num).
Proof.
  intros Hb. unfold fix_explicit_any. rewrite Hb.
  pose proof (line_at_no_newline _ _ Hb) as H0.
  sub_step (str ":\s*any\b") (str ": unknown") (line_at (split_lines content) line_num) H0.
  sub_step (str "<any>") (str "<unknown>") line Hnl.
  sub_step (str "\bas\s+any\b") (str "as unknown") line0 Hnl0.
  now exists line1.
Qed.

Lemma fix_empty_object_type_in_bounds content line_num :
  in_bounds line_num (split_lines content) = true ->
  rewrites_target content line_num (fix_empty_object_type content line_num).
Proof.
  intros Hb. unfold fix_empty_object_type. rewrite Hb.
  pose proof (line_at_no_newline _ _ Hb) as H0.
  sub_step (str ":\s*\{\s*\}") (str ": unknown") (line_at (split_lines content) line_num) H0.
  sub_step (str "<\{\s*\}>") (str "<unknown>") line Hnl.
  now exists line0.
Qed.

Lemma remove_unused_import_in_bounds content line_num import_name :
  identifier import_name ->
  in_bounds line_num (split_lines content) = true ->
  rewrites_target content line_num (remove_unused_import content line_num import_name).
Proof.
  intros Hv Hb. unfold remove_unused_import. rewrite Hb.
  pose proof (line_at_no_newline _ _ Hb) as H0.
  destruct (import_patterns_usable import_name Hv) as [[r Hr] Hc2].
  unfold re_match. rewrite Hr. cbn [bind].
  destruct (hd_error _).
  - exists []. split; [constructor|reflexivity].
  - sub_step (str ",?\s*" ++ import_name ++ str "\s*,?") (@nil ascii)
      (line_at (split_lines content) line_num) H0.
    sub_step (str ",\s*,") (str ",") line Hnl.
    sub_step (str "\{\s*,") (str "{") line0 Hnl0.
    sub_step (str ",\s*\}") (str "}") line1 Hnl1.
    now exists line2.
Qed.

(** ** Documents after a rewrite *)

Lemma in_bounds_range line_num lines :
  in_bounds line_num lines = true <->
  (1 <= line_num /\ line_num <= Z.of_nat (length lines))%Z.
Proof.
  unfold in_bounds. rewrite andb_true_iff, Z.leb_le, Z.ltb_lt. lia.
Qed.

Lemma set_line_length lines line_num new :
  length (set_line lines line_num new) = length lines.
Proof. apply length_insert. Qed.

(** Splitting the rewritten document gives back the rewritten lines. *)
Lemma split_rewritten content line_num new :
  no_newline new ->
  split_lines (join_lines (set_line (split_lines content) line_num new))
  = set_line (split_lines content) line_num new.
Proof.
  intros Hnl. apply split_join.
  - intros E. apply (f_equal length) in E. rewrite set_line_length in E.
    pose proof (split_lines_not_nil content). destruct (split_lines content); simpl in *; congruence.
  - apply Forall_insert; [apply split_lines_no_newline|assumption].
Qed.

Lemma doc_line_Some content k line :
  doc_line content k = Some line ->
  in_bounds k (split_lines content) = true /\ line_at (split_lines content) k = line.
Proof.
  unfold doc_line. destruct (1 <=? k)%Z eqn:E; [|discriminate].
  apply Z.leb_le in E. intros H. split.
  - apply in_bounds_range. apply lookup_lt_Some in H. lia.
  - unfold line_at. rewrite nth_lookup, H. reflexivity.
Qed.

Lemma doc_line_rewritten_target content line_num new :
  in_bounds line_num (split_lines content) = true -> no_newline new ->
  doc_line (join_lines (set_line (split_lines content) line_num new)) line_num = Some new.
Proof.
  intros Hb Hnl. apply in_bounds_range in Hb. unfold doc_line.
  rewrite split_rewritten by assumption.
  destruct (1 <=? line_num)%Z eqn:E; [|apply Z.leb_gt in E; lia].
  apply list_lookup_insert_eq. lia.
Qed.

Lemma doc_line_rewritten_other content line_num new k :
  in_bounds line_num (split_lines content) = true -> no_newline new ->
  k <> line_num ->
  doc_line (join_lines (set_line (split_lines content) line_num new)) k
  = doc_line content k.
Proof.
  intros Hb Hnl Hk. apply in_bounds_range in Hb. unfold doc_line.
  rewrite split_rewritten by assumption.
  destruct (1 <=? k)%Z eqn:E; [|reflexivity]. apply Z.leb_le in E.
  apply list_lookup_insert_ne. lia.
Qed.

Lemma line_count_rewritten content line_num new :
  no_newline new ->
  line_count (join_lines (set_line (split_lines content) line_num new)) = line_count content.
Proof.
  intros Hnl. unfold line_count. rewrite split_rewritten by assumption.
  apply set_line_length.
Qed.

Lemma apply_out_of_bounds fix_type content line_num detail :
  in_bounds line_num (split_lines content) = false ->
  apply fix_type content line_num detail = Returned content.
Proof.
  intros Hb. unfold apply, fix_unused_request_param, fix_unused_var, fix_explicit_any,
    fix_empty_object_type, remove_unused_import.
  rewrite Hb, join_split. repeat destruct (text_eqb fix_type _); reflexivity.
Qed.

Lemma apply_in_bounds fix_type content line_num detail :
  (uses_detail fix_type = true -> identifier detail) ->
  in_bounds line_num (split_lines content) = true ->
  rewrites_target content line_num (apply fix_type content line_num detail).
Proof.
  intros Hd Hb. unfold apply. unfold uses_detail in Hd.
  destruct (text_eqb fix_type (str "unused_param"));
    [now apply fix_unused_request_param_in_bounds|].
  destruct (text_eqb fix_type (str "unused_var")).
  { apply fix_unused_var_in_bounds; [now apply Hd|assumption]. }
  destruct (text_eqb fix_type (str "explicit_any"));
    [now apply fix_explicit_any_in_bounds|].
  destruct (text_eqb fix_type (str "empty_object"));
    [now apply fix_empty_object_type_in_bounds|].
  destruct (text_eqb fix_type (str "unused_import")).
  { apply remove_unused_import_in_bounds; [now apply Hd|assumption]. }
  exists (line_at (split_lines content) line_num). split.
  - now apply line_at_no_newline.
  - rewrite set_line_same by assumption. now rewrite join_split.
Qed.

(** ** Calls out of bounds *)

Lemma rules_out_of_bounds content line_num detail :
  in_bounds line_num (split_lines content) = false ->
  fix_unused_request_param content line_num = Returned content /\
  fix_unused_var content line_num detail = Returned content /\
  fix_explicit_any content line_num = Returned content /\
  fix_empty_object_type content line_num = Returned content /\
  remove_unused_import content line_num detail = Returned content.
Proof.
  intros Hb.
  unfold fix_unused_request_param, fix_unused_var, fix_explicit_any,
    fix_empty_object_type, remove_unused_import.
  rewrite Hb, join_split. repeat split.
Qed.

(** ** A rule function and its rule on the target line *)

Lemma for_patterns_rule count patterns line line_num lines :
  set_line lines line_num line = lines ->
  for_patterns count patterns line line_num lines
  = (new <- first_match_rule count patterns line ;; Returned (set_line lines line_num new)).
Proof.
  intros Hsame. induction patterns as [|[pattern repl] more IH]; simpl.
  - now rewrite Hsame.
  - destruct (re_search pattern line) as [[m|]| | |]; simpl; try reflexivity.
    exact IH.
Qed.

Lemma fix_unused_request_param_on_target content line_num :
  in_bounds line_num (split_lines content) = true ->
  fix_unused_request_param content line_num
  = on_target content line_num (first_match_rule 0 request_patterns).
Proof.
  intros Hb. unfold fix_unused_request_param, on_target. rewrite Hb.
  rewrite for_patterns_rule by now apply set_line_same.
  now destruct (first_match_rule _ _ _).
Qed.

Lemma fix_unused_var_on_target content line_num var_name :
  in_bounds line_num (split_lines content) = true ->
  fix_unused_var content line_num var_name
  = on_target content line_num (first_match_rule 1 (var_patterns var_name)).
Proof.
  intros Hb. unfold fix_unused_var, on_target. rewrite Hb.
  rewrite for_patterns_rule by now apply set_line_same.
  now destruct (first_match_rule _ _ _).
Qed.

Lemma fix_explicit_any_on_target content line_num :
  in_bounds line_num (split_lines content) = true ->
  fix_explicit_any content line_num = on_target content line_num explicit_any_rule.
Proof.
  intros Hb. unfold fix_explicit_any, on_target, explicit_any_rule. rewrite Hb.
  destruct (re_sub _ _ (line_at _ _) 0) as [l1| | |]; cbn [bind]; try reflexivity.
  destruct (re_sub _ _ l1 0) as [l2| | |]; cbn [bind]; reflexivity.
Qed.

Lemma fix_empty_object_type_on_target content line_num :
  in_bounds line_num (split_lines content) = true ->
  fix_empty_object_type content line_num = on_target content line_num empty_object_rule.
Proof.
  intros Hb. unfold fix_empty_object_type, on_target, empty_object_rule. rewrite Hb.
  destruct (re_sub _ _ (line_at _ _) 0) as [l1| | |]; cbn [bind]; reflexivity.
Qed.

Lemma remove_unused_import_on_target content line_num import_name :
  in_bounds line_num (split_lines content) = true ->
  remove_unused_import content line_num import_name
  = on_target content line_num (unused_import_rule import_name).
Proof.
  intros Hb. unfold remove_unused_import, on_target, unused_import_rule. rewrite Hb.
  destruct (re_match _ _) as [[m|]| | |]; cbn [bind]; try reflexivity.
  destruct (re_sub _ _ (line_at _ _) 0) as [l1| | |]; cbn [bind]; try reflexivity.
  destruct (re_sub _ _ l1 0) as [l2| | |]; cbn [bind]; try reflexivity.
  destruct (re_sub _ _ l2 0) as [l3| | |]; cbn [bind]; reflexivity.
Qed.

(** A rule that gives back the target line gives back the document. *)
Lemma on_target_same content line_num rule :
  in_bounds line_num (split_lines content) = true ->
  rule (line_at (split_lines content) line_num)
  = Returned (line_at (split_lines content) line_num) ->
  on_target content line_num rule = Returned content.
Proof.
  intros Hb H. unfold on_target. rewrite H. cbn [bind].
  rewrite set_line_same by assumption. now rewrite join_split.
Qed.

Lemma re_sub_unmatched pattern repl line count :
  unmatched line pattern -> (exists t, expand_template repl = Returned t) ->
  re_sub pattern repl line count = Returned line.
Proof.
  unfold unmatched, re_search, re_sub. intros H [t Ht].
  destruct (compile pattern) as [r| | |]; try discriminate H. cbn [bind] in *.
  rewrite Ht. cbn [bind]. injection H as H.
  replace (2 * length line + 2)%nat with (S (2 * length line + 1)) by lia.
  now apply sub_loop_no_match.
Qed.

Lemma first_match_rule_unmatched count patterns line :
  Forall (fun pr => unmatched line (fst pr)) patterns ->
  first_match_rule count patterns line = Returned line.
Proof.
  induction 1 as [|[pattern repl] more H _ IH]; simpl; [reflexivity|].
  unfold unmatched in H. simpl in H. now rewrite H.
Qed.

Lemma on_target_line content line_num rule line new :
  doc_line content line_num = Some line -> rule line = Returned new ->
  on_target content line_num rule
  = Returned (join_lines (set_line (split_lines content) line_num new)).
Proof.
  intros Hl Hr. apply doc_line_Some in Hl as [_ Hl].
  unfold on_target. now rewrite Hl, Hr.
Qed.

Lemma replaces_target_intro content line_num line new o :
  doc_line content line_num = Some line -> no_newline new ->
  o = Returned (join_lines (set_line (split_lines content) line_num new)) ->
  replaces_target content line_num new o.
Proof.
  intros Hl Hnl ->. apply doc_line_Some in Hl as [Hb _].
  split; [reflexivity|]. intros out [= <-]. split.
  - now apply doc_line_rewritten_target.
  - now apply line_count_rewritten.
Qed.

Ltac no_newline_literal :=
  unfold no_newline; cbn; repeat (constructor; [discriminate|]); constructor.

(** The pattern of the destructured branch, for a name that is an
    identifier: an optional comma, spaces, the characters of the name,
    spaces, an optional comma; no word boundary on either side. *)
Lemma destructured_pattern import_name :
  identifier import_name ->
  compile (str ",?\s*" ++ import_name ++ str "\s*,?")
  = Returned (mk_seq ([Repeat QOpt (Lit ","); Repeat QStar (Cat CSpace false)]
                      ++ map Lit import_name
                      ++ [Repeat QStar (Cat CSpace false); Repeat QOpt (Lit ",")])).
Proof.
  intros Hv. unfold compile. cbn [str list_ascii_of_string app].
  repeat first
    [ progress simpl
    | progress unfold repeat_last, push, empty_frame
    | rewrite (modifier_follows_identifier _ _ Hv) by reflexivity
    | rewrite (parse_loop_identifier _ _ _ _ Hv) ].
  unfold close_frame. cbn [items alts rev app].
  rewrite !rev_app_distr, rev_involutive. cbn [rev app].
  rewrite <- !app_assoc. reflexivity.
Qed.

(** ** Matching without choice *)

Lemma star_loop_spaces (f : state -> list state) :
  (forall before x u, is_space x = true -> f (before, x :: u) = []) ->
  forall fuel before u, (length u < fuel)%nat ->
    flat_map f (star_loop (ends (Cat CSpace false)) fuel (before, u))
    = f (skip_spaces before u).
Proof.
  intros Hf. induction fuel as [|fuel IH]; intros before u Hlt; [lia|].
  destruct u as [|x u']; simpl.
  - apply app_nil_r.
  - unfold take_char. simpl. destruct (is_space x) eqn:E; simpl.
    + unfold remaining. simpl.
      replace (length u' <? S (length u'))%nat with true
        by (symmetry; apply Nat.ltb_lt; lia).
      rewrite app_nil_r, flat_map_app. simpl.
      rewrite (Hf before x u' E), !app_nil_r. apply IH. simpl in Hlt. lia.
    + apply app_nil_r.
Qed.

Lemma ends_items l : well_formed l = true ->
  forall st, ends (items_regex l) st = option_list (dmatch l st).
Proof.
  induction l as [|it l IH]; intros Hwf [before u]; [reflexivity|].
  destruct it as [c|[]|].
  - simpl in Hwf. specialize (IH Hwf).
    change (ends (items_regex (ILit c :: l)) (before, u))
      with (flat_map (ends (items_regex l)) (take_char (Ascii.eqb c) (before, u))).
    unfold take_char. simpl. destruct u as [|x u]; [reflexivity|].
    destruct (Ascii.eqb c x); simpl; [|reflexivity].
    rewrite app_nil_r. apply IH.
  - simpl in Hwf. destruct l as [|[d| |] l']; try discriminate Hwf.
    apply andb_true_iff in Hwf as [Hd Hwf]. apply negb_true_iff in Hd.
    specialize (IH Hwf).
    change (ends (items_regex (ISpaces true :: ILit d :: l')) (before, u))
      with (flat_map (ends (items_regex (ILit d :: l')))
              (flat_map (fun st' => star_loop (ends (Cat CSpace false))
                                      (S (remaining st')) st')
                 (take_char (fun c => xorb false (is_space c)) (before, u)))).
    unfold take_char. simpl snd. destruct u as [|x u]; [reflexivity|].
    simpl xorb. destruct (is_space x) eqn:E; [|simpl; now rewrite E].
    cbn [flat_map]. rewrite app_nil_r.
    rewrite star_loop_spaces.
    + rewrite IH. simpl. now rewrite E.
    + intros b y v Hy.
      change (ends (items_regex (ILit d :: l')) (b, y :: v))
        with (flat_map (ends (items_regex l')) (take_char (Ascii.eqb d) (b, y :: v))).
      unfold take_char. simpl. destruct (Ascii.eqb d y) eqn:Edy; [|reflexivity].
      apply Ascii.eqb_eq in Edy. congruence.
    + unfold remaining. simpl. lia.
  - simpl in Hwf. destruct l as [|[d| |] l']; try discriminate Hwf.
    apply andb_true_iff in Hwf as [Hd Hwf]. apply negb_true_iff in Hd.
    specialize (IH Hwf).
    change (ends (items_regex (ISpaces false :: ILit d :: l')) (before, u))
      with (flat_map (ends (items_regex (ILit d :: l')))
              (star_loop (ends (Cat CSpace false)) (S (remaining (before, u)))
                 (before, u))).
    rewrite star_loop_spaces.
    + rewrite IH. reflexivity.
    + intros b y v Hy.
      change (ends (items_regex (ILit d :: l')) (b, y :: v))
        with (flat_map (ends (items_regex l')) (take_char (Ascii.eqb d) (b, y :: v))).
      unfold take_char. simpl. destruct (Ascii.eqb d y) eqn:Edy; [|reflexivity].
      apply Ascii.eqb_eq in Edy. congruence.
    + unfold remaining. simpl. lia.
  - simpl in Hwf. specialize (IH Hwf).
    change (ends (items_regex (IBound :: l)) (before, u))
      with (flat_map (ends (items_regex l))
              (if at_boundary (before, u) then [(before, u)] else [])).
    simpl dmatch. destruct (at_boundary (before, u)); simpl; [|reflexivity].
    rewrite app_nil_r. apply IH.
Qed.

Lemma skip_spaces_suffix u : forall before, snd (skip_spaces before u) `suffix_of` u.
Proof.
  induction u as [|x u IH]; intros before; simpl; [reflexivity|].
  destruct (is_space x); [|reflexivity]. apply suffix_cons_r, IH.
Qed.

Lemma dmatch_suffix l : forall st st', dmatch l st = Some st' -> snd st' `suffix_of` snd st.
Proof.
  induction l as [|[c|[]|] l IH]; intros [before u] st'; simpl.
  - intros [= <-]. reflexivity.
  - destruct u as [|x u]; [discriminate|]. destruct (Ascii.eqb c x); [|discriminate].
    intros H. apply IH in H. now apply suffix_cons_r.
  - destruct u as [|x u]; [discriminate|]. destruct (is_space x); [|discriminate].
    intros H. apply IH in H. apply suffix_cons_r.
    etransitivity; [exact H|apply skip_spaces_suffix].
  - intros H. apply IH in H. etransitivity; [exact H|apply skip_spaces_suffix].
  - destruct (at_boundary (before, u)); [|discriminate]. apply IH.
Qed.

Lemma dmatch_head l q : head_lit l = Some q ->
  forall before u st', dmatch l (before, u) = Some st' ->
    exists u1, u = q :: u1 /\ snd st' `suffix_of` u1.
Proof.
  induction l as [|[c|[]|] l IH]; simpl; try discriminate.
  - intros [= ->] before u st'. destruct u as [|x u]; [discriminate|].
    destruct (Ascii.eqb q x) eqn:E; [|discriminate].
    apply Ascii.eqb_eq in E. subst x. intros H. apply dmatch_suffix in H. eauto.
  - intros Hq before u st'. destruct (at_boundary (before, u)); [|discriminate].
    now apply IH.
Qed.

Lemma dmatch_progress l q before u st' :
  head_lit l = Some q -> dmatch l (before, u) = Some st' ->
  (remaining st' < length u)%nat.
Proof.
  intros Hq H. destruct (dmatch_head l q Hq before u st' H) as (u1 & -> & Hs).
  apply suffix_length in Hs. unfold remaining. simpl. lia.
Qed.

Lemma dmatch_bounds l : forallb is_bound l = true ->
  forall st st', dmatch l st = Some st' -> st' = st.
Proof.
  induction l as [|[c|[]|] l IH]; simpl; try discriminate.
  - now intros _ st st' [= <-].
  - intros Hl st st'. destruct (at_boundary st); [|discriminate]. now apply IH.
Qed.

Lemma dmatch_last l ql : last_lit l = Some ql ->
  forall st st', dmatch l st = Some st' -> fst st' = Some ql.
Proof.
  induction l as [|it l IH]; simpl; [discriminate|].
  destruct (last_lit l) as [d|] eqn:L.
  - intros [= ->] [before u] st'. specialize (IH Logic.eq_refl).
    destruct it as [c|[]|]; simpl.
    + destruct u as [|x u]; [discriminate|]. destruct (Ascii.eqb c x); [|discriminate].
      apply IH.
    + destruct u as [|x u]; [discriminate|]. destruct (is_space x); [|discriminate].
      apply IH.
    + apply IH.
    + destruct (at_boundary (before, u)); [|discriminate]. apply IH.
  - destruct it as [c|[]|]; try discriminate.
    destruct (forallb is_bound l) eqn:B; [|discriminate].
    intros [= ->] [before u] st'. simpl.
    destruct u as [|x u]; [discriminate|]. destruct (Ascii.eqb ql x) eqn:E; [|discriminate].
    apply Ascii.eqb_eq in E. subst x.
    intros H. apply (dmatch_bounds l B) in H. now subst st'.
Qed.

Lemma search_not_found l : well_formed l = true ->
  forall u before, found l before u = false ->
    search_from (items_regex l) before u false = None.
Proof.
  intros Hwf. induction u as [|x u IH]; intros before; simpl;
    rewrite (ends_items l Hwf); destruct (dmatch l _); try discriminate; simpl.
  - reflexivity.
  - intros H. now rewrite IH.
Qed.

Lemma found_suffix l m : forall before u,
  found l before (m ++ u) = false ->
  found l (match last m with Some c => Some c | None => before end) u = false.
Proof.
  induction m as [|x m IH]; intros before u H; [exact H|].
  simpl in H. destruct (dmatch l (before, x :: m ++ u)); [discriminate|].
  apply IH in H. rewrite last_cons. destruct (last m); exact H.
Qed.

Lemma sub_loop_skip r repl count fuel n before x u must_advance :
  pick must_advance (before, x :: u) (ends r (before, x :: u)) = None ->
  sub_loop r repl count (S fuel) n before (x :: u) must_advance
  = (t <- sub_loop r repl count (S fuel) n (Some x) u false ;; Returned (x :: t)).
Proof.
  intros Hp. simpl. rewrite Hp.
  destruct (negb (count =? 0)%nat && (count <=? n)%nat); [reflexivity|].
  destruct (search_from r (Some x) u false) as [[skipped [before' u']]|]; [|reflexivity].
  simpl. now destruct (sub_loop r repl count fuel (S n) before' u' _).
Qed.

Lemma sub_loop_scan l repl q :
  well_formed l = true -> head_lit l = Some q ->
  forall fuel2 fuel1 n before u,
    (length u < fuel1)%nat -> (length u < fuel2)%nat ->
    sub_loop (items_regex l) repl 0 fuel1 n before u false
    = Returned (scan l repl fuel2 before u).
Proof.
  intros Hwf Hq. induction fuel2 as [|fuel2 IH]; intros fuel1 n before u H1 H2; [lia|].
  destruct fuel1 as [|fuel1]; [lia|].
  destruct u as [|x u].
  - simpl. rewrite (ends_items l Hwf).
    destruct (dmatch l (before, [])) as [st'|] eqn:D; [|reflexivity].
    apply (dmatch_progress l q) in D; [simpl in D; lia|assumption].
  - destruct (dmatch l (before, x :: u)) as [[before' u']|] eqn:D.
    + pose proof (dmatch_progress l q _ _ _ Hq D) as Hp. unfold remaining in Hp.
      simpl in Hp. simpl. rewrite (ends_items l Hwf), D. simpl.
      replace (length u' =? S (length u))%nat with false
        by (symmetry; apply Nat.eqb_neq; lia).
      rewrite (IH fuel1 (S n) before' u') by (simpl in *; lia). reflexivity.
    + rewrite sub_loop_skip by (rewrite (ends_items l Hwf), D; reflexivity).
      rewrite (IH (S fuel1) n (Some x) u) by (simpl in *; lia).
      simpl. now rewrite D.
Qed.

Lemma at_boundary_cons before x u :
  at_boundary (before, x :: u) = xorb (wordness before) (is_word x).
Proof. reflexivity. Qed.

Lemma at_boundary_nil before : at_boundary (before, []) = xorb (wordness before) false.
Proof. reflexivity. Qed.

(** What a match consumed, and the character before its end. *)
Lemma skip_spaces_prev u : forall before,
  exists m, u = m ++ snd (skip_spaces before u) /\
    fst (skip_spaces before u) = match last m with Some c => Some c | None => before end.
Proof.
  induction u as [|x u IH]; intros before; simpl.
  - now exists [].
  - destruct (is_space x).
    + destruct (IH (Some x)) as (m & Hm & Hb). exists (x :: m). split.
      * simpl. now f_equal.
      * rewrite Hb, last_cons. now destruct (last m).
    + now exists [].
Qed.

Lemma dmatch_prev l : forall before u st',
  dmatch l (before, u) = Some st' ->
  exists m, u = m ++ snd st' /\
    fst st' = match last m with Some c => Some c | None => before end.
Proof.
  assert (Hcons : forall x (m : text) (before : option ascii),
            match last (x :: m) with Some c => Some c | None => before end
            = match last m with Some c => Some c | None => Some x end).
  { intros x m before. rewrite last_cons. now destruct (last m). }
  assert (Happ : forall (m1 m2 : text) (before : option ascii),
            match last (m1 ++ m2) with Some c => Some c | None => before end
            = match last m2 with
              | Some c => Some c
              | None => match last m1 with Some c => Some c | None => before end
              end).
  { intros m1 m2 before. rewrite last_app. now destruct (last m2). }
  induction l as [|[c|[]|] l IH]; intros before u st'; simpl.
  - intros [= <-]. now exists [].
  - destruct u as [|x u]; [discriminate|]. destruct (Ascii.eqb c x); [|discriminate].
    intros H. apply IH in H as (m & Hm & Hb). exists (x :: m). split.
    + simpl. now f_equal.
    + now rewrite Hcons.
  - destruct u as [|x u]; [discriminate|]. destruct (is_space x); [|discriminate].
    destruct (skip_spaces_prev u (Some x)) as (m1 & Hm1 & Hb1).
    destruct (skip_spaces (Some x) u) as [b1 u1]. simpl in *.
    intros H. apply IH in H as (m & Hm & Hb). exists (x :: m1 ++ m). split.
    + simpl. f_equal. rewrite <- app_assoc. congruence.
    + rewrite Hcons, Happ, Hb, Hb1. now destruct (last m), (last m1).
  - destruct (skip_spaces_prev u before) as (m1 & Hm1 & Hb1).
    destruct (skip_spaces before u) as [b1 u1]. simpl in *.
    intros H. apply IH in H as (m & Hm & Hb). exists (m1 ++ m). split.
    + rewrite <- app_assoc. congruence.
    + rewrite Happ, Hb, Hb1. reflexivity.
  - destruct (at_boundary (before, u)); [|discriminate]. apply IH.
Qed.

Lemma bound_free_tail it l : bound_free (it :: l) = true -> bound_free l = true.
Proof. unfold bound_free. simpl. intros H. now apply andb_true_iff in H as [_ H]. Qed.

Lemma alike_tail it l b1 b2 : alike (it :: l) b1 b2 -> alike l b1 b2.
Proof. intros [H|H]; [left; now apply bound_free_tail in H|now right]. Qed.

Lemma alike_refl l b : alike l b b.
Proof. now right. Qed.

Lemma alike_sym l b1 b2 : alike l b1 b2 -> alike l b2 b1.
Proof. intros [H|H]; [now left|now right]. Qed.

Lemma alike_bound l b1 b2 : alike (IBound :: l) b1 b2 -> wordness b1 = wordness b2.
Proof. intros [H|H]; [discriminate H|exact H]. Qed.

(** Whether a match exists depends on the character before the start
    only through its being a word character, and only where the pattern
    has a word boundary. *)
Lemma dmatch_alike l : forall b1 b2 u,
  alike l b1 b2 -> dmatch l (b1, u) <> None -> dmatch l (b2, u) <> None.
Proof.
  induction l as [|[c|[]|] l IH]; intros b1 b2 u Hw; simpl.
  - discriminate.
  - destruct u as [|x u]; [tauto|]. destruct (Ascii.eqb c x); tauto.
  - destruct u as [|x u]; [tauto|]. destruct (is_space x); tauto.
  - apply alike_tail in Hw. destruct u as [|x u]; simpl; [now apply IH|].
    destruct (is_space x); [tauto|now apply IH].
  - pose proof (alike_bound _ _ _ Hw) as He. apply alike_tail in Hw.
    destruct u as [|x u].
    + rewrite !at_boundary_nil, He. destruct (xorb _ _); [now apply IH|tauto].
    + rewrite !at_boundary_cons, He. destruct (xorb _ _); [now apply IH|tauto].
Qed.

Lemma skip_known_sound pre : forall wb wb' rest before X,
  skip_known wb pre = Some (wb', rest) -> wordness before = wb ->
  exists before', skip_spaces before (pre ++ X) = (before', rest ++ X) /\
                  wordness before' = wb'.
Proof.
  induction pre as [|x pre IH]; intros wb wb' rest before X; simpl; [discriminate|].
  destruct (is_space x) eqn:E.
  - intros H _. now apply (IH _ _ _ (Some x) X) in H.
  - intros [= <- <-] Hw. exists before. now split.
Qed.

Lemma fails_within_sound l : forall wb pre before X,
  wordness before = wb -> fails_within l wb pre = true ->
  dmatch l (before, pre ++ X) = None.
Proof.
  induction l as [|[c|[]|] l IH]; intros wb pre before X Hw; simpl.
  - discriminate.
  - destruct pre as [|x pre]; [discriminate|]. simpl.
    destruct (Ascii.eqb c x); [|reflexivity]. now apply IH.
  - destruct pre as [|x pre]; [discriminate|]. simpl.
    destruct (is_space x); [|reflexivity].
    destruct (skip_known (is_word x) pre) as [[wb' rest]|] eqn:K; [|discriminate].
    destruct (skip_known_sound pre _ _ _ (Some x) X K Logic.eq_refl) as (b' & -> & Hb').
    now apply IH.
  - destruct (skip_known wb pre) as [[wb' rest]|] eqn:K; [|discriminate].
    destruct (skip_known_sound pre _ _ _ before X K Hw) as (b' & -> & Hb').
    now apply IH.
  - destruct pre as [|x pre]; [discriminate|].
    change ((x :: pre) ++ X) with (x :: pre ++ X). rewrite at_boundary_cons, Hw.
    destruct (xorb wb (is_word x)); [|reflexivity].
    intros H. now apply (IH wb (x :: pre) before X).
Qed.

Lemma no_start_sound l pre : forall wb before X,
  wordness before = wb -> no_start l wb pre = true ->
  found l before (pre ++ X)
  = found l (match last pre with Some c => Some c | None => before end) X.
Proof.
  induction pre as [|x pre IH]; intros wb before X Hw; simpl; [reflexivity|].
  intros H. apply andb_true_iff in H as [Hf Hn].
  change (x :: pre ++ X) with ((x :: pre) ++ X).
  rewrite (fails_within_sound l wb (x :: pre) before X Hw Hf).
  rewrite (IH (is_word x) (Some x) X Logic.eq_refl Hn), last_cons.
  now destruct (last pre).
Qed.

Lemma lits_fail_tail it l pre : lits_fail (it :: l) pre = true -> lits_fail l pre = true.
Proof. cbn [lits_fail]. intros H. now apply andb_true_iff in H as [_ H]. Qed.

Lemma lits_fail_head c l pre wb :
  lits_fail (ILit c :: l) pre = true -> fails_within (ILit c :: l) wb pre = true.
Proof.
  cbn [lits_fail]. intros H. apply andb_true_iff in H as [H _].
  destruct pre; exact H.
Qed.

(** *** A substitution and the matches of a pattern

    [Q] is replaced by [r0 :: repl'] all along a text; [P] is a pattern
    whose matches are looked for in the result.  The replacement starts
    with a character that is, like the first character of a match of
    [Q], not whitespace, and a word character exactly when that one is. *)
Section Substitution.

Variables (Q : list item) (r0 : ascii) (repl' : text) (q0 ql : ascii).

Local Abbreviation repl := (r0 :: repl').

Hypothesis Q_head : head_lit Q = Some q0.
Hypothesis Q_last : last_lit Q = Some ql.
Hypothesis q0_not_space : is_space q0 = false.
Hypothesis r0_not_space : is_space r0 = false.
Hypothesis first_alike : is_word q0 = is_word r0.

(** A match that runs into a replacement would also exist where the
    replaced match of [Q] started. *)
Lemma reflect_emit l : lits_fail l repl = true ->
  forall b bt u1 X, alike l b bt ->
    dmatch l (bt, repl ++ X) <> None -> dmatch l (b, q0 :: u1) <> None.
Proof.
  induction l as [|[c|[]|] l IHl]; intros Hl b bt u1 X Hw.
  - discriminate.
  - rewrite (fails_within_sound _ _ _ bt X Logic.eq_refl
               (lits_fail_head c l repl (wordness bt) Hl)).
    tauto.
  - simpl. rewrite r0_not_space. tauto.
  - apply lits_fail_tail in Hl. apply alike_tail in Hw.
    simpl. rewrite r0_not_space, q0_not_space. now apply IHl.
  - apply lits_fail_tail in Hl. pose proof (alike_bound _ _ _ Hw) as He.
    apply alike_tail in Hw. cbn [dmatch].
    change (repl ++ X) with (r0 :: repl' ++ X).
    rewrite !at_boundary_cons, He, first_alike.
    destruct (xorb _ _); [|tauto]. now apply IHl.
Qed.

(** A match found in the result of the scan is a match in the text
    that was scanned. *)
Lemma reflect : forall fuel b bt u l,
  alike l b bt -> lits_fail l repl = true ->
  dmatch l (bt, scan Q repl fuel b u) <> None -> dmatch l (b, u) <> None.
Proof.
  induction fuel as [|fuel IH]; intros b bt u l Hw Hl.
  - simpl. apply dmatch_alike. now apply alike_sym.
  - cbn [scan]. destruct (dmatch Q (b, u)) as [[b' u']|] eqn:DQ.
    + destruct (dmatch_head Q q0 Q_head b u _ DQ) as (u1 & -> & _).
      now apply reflect_emit.
    + destruct u as [|x u']; [apply dmatch_alike; now apply alike_sym|].
      revert Hl Hw. induction l as [|[c|[]|] l IHl]; intros Hl Hw.
      * discriminate.
      * apply lits_fail_tail in Hl. cbn [dmatch snd].
        destruct (Ascii.eqb c x); [|tauto].
        apply (IH (Some x) (Some x) u' l); [apply alike_refl|assumption].
      * apply lits_fail_tail in Hl. cbn [dmatch snd].
        destruct (is_space x); [|tauto].
        apply (IH (Some x) (Some x) u' (ISpaces false :: l));
          [apply alike_refl|assumption].
      * apply lits_fail_tail in Hl. apply alike_tail in Hw.
        cbn [dmatch snd fst skip_spaces].
        destruct (is_space x).
        -- apply (IH (Some x) (Some x) u' (ISpaces false :: l));
             [apply alike_refl|assumption].
        -- now apply IHl.
      * apply lits_fail_tail in Hl. pose proof (alike_bound _ _ _ Hw) as He.
        apply alike_tail in Hw. cbn [dmatch].
        rewrite !at_boundary_cons, He. destruct (xorb _ _); [|tauto]. now apply IHl.
Qed.

Variable P : list item.

Hypothesis P_lits : lits_fail P repl = true.
Hypothesis P_inside_word : no_start P true repl = true.
Hypothesis P_inside_other : no_start P false repl = true.
Hypothesis last_alike : alike P (last repl) (Some ql).

(** After the scan, [P] has no match: where [P] is the pattern that
    was replaced, or had no match before. *)
Lemma scan_no_match : forall fuel b bt u,
  alike P b bt -> (length u < fuel)%nat ->
  P = Q \/ found P b u = false ->
  found P bt (scan Q repl fuel b u) = false.
Proof.
  induction fuel as [|fuel IH]; intros b bt u Hw Hlen Hor; [lia|].
  assert (HPnone : dmatch Q (b, u) = None -> dmatch P (b, u) = None).
  { destruct Hor as [->|Hf]; [tauto|]. intros _.
    destruct u; simpl in Hf; destruct (dmatch P _); congruence. }
  cbn [scan]. destruct (dmatch Q (b, u)) as [[b' u']|] eqn:DQ.
  - rewrite (no_start_sound P repl (wordness bt) bt _ Logic.eq_refl)
      by (destruct (wordness bt); assumption).
    pose proof (dmatch_last Q ql Q_last _ _ DQ) as Hb'. simpl in Hb'. subst b'.
    pose proof (dmatch_progress Q q0 _ _ _ Q_head DQ) as Hp. unfold remaining in Hp.
    simpl in Hp.
    destruct (last repl) as [rl|] eqn:L; [|now rewrite last_cons in L; destruct (last repl')].
    apply IH.
    + now apply alike_sym.
    + lia.
    + destruct Hor as [->|Hf]; [now left|right].
      destruct (dmatch_prev Q _ _ _ DQ) as (m & Hm & Hb). simpl in Hm, Hb.
      rewrite Hm in Hf. apply found_suffix in Hf. now rewrite <- Hb in Hf.
  - destruct u as [|x u'].
    + simpl. destruct (dmatch P (bt, [])) eqn:D; [exfalso|reflexivity].
      apply (dmatch_alike P bt b [] (alike_sym _ _ _ Hw)); [now rewrite D|now apply HPnone].
    + cbn [found]. destruct (dmatch P (bt, x :: scan Q repl fuel (Some x) u')) eqn:D.
      * exfalso. apply (reflect (S fuel) b bt (x :: u') P Hw P_lits).
        -- cbn [scan]. rewrite DQ, D. discriminate.
        -- now apply HPnone.
      * apply IH; [apply alike_refl|simpl in Hlen; lia|].
        destruct Hor as [->|Hf]; [now left|right].
        simpl in Hf. now rewrite (HPnone Logic.eq_refl) in Hf.
Qed.

End Substitution.

Lemma scan_clears Q repl P u :
  step_ok Q repl = true -> clears P Q repl = true ->
  P = Q \/ found P None u = false ->
  found P None (scan Q repl (S (length u)) None u) = false.
Proof.
  unfold step_ok, clears. intros Hs Hc Hor.
  apply andb_true_iff in Hs as [_ Hs].
  destruct (head_lit Q) as [q0|] eqn:Hh; [|discriminate].
  destruct (last_lit Q) as [ql|] eqn:Hl; [|discriminate].
  destruct repl as [|r0 repl']; [discriminate|].
  repeat (apply andb_true_iff in Hs as [Hs ?]).
  repeat (apply andb_true_iff in Hc as [Hc ?]).
  apply (scan_no_match Q r0 repl' q0 ql); try assumption.
  - now apply negb_true_iff.
  - now apply negb_true_iff.
  - now apply Bool.eqb_prop.
  - destruct (bound_free P) eqn:B; [now left|right]. now apply Bool.eqb_prop.
  - apply alike_refl.
  - lia.
Qed.

Lemma re_sub_scan pattern template Q repl line :
  compile pattern = Returned (items_regex Q) ->
  expand_template template = Returned repl ->
  step_ok Q repl = true ->
  re_sub pattern template line 0 = Returned (scan Q repl (S (length line)) None line).
Proof.
  intros Hc Ht Hs. unfold re_sub. rewrite Hc, Ht. cbn [bind].
  unfold step_ok in Hs. apply andb_true_iff in Hs as [Hwf Hs].
  destruct (head_lit Q) as [q0|] eqn:Hh; [|discriminate].
  apply (sub_loop_scan Q repl q0 Hwf Hh); lia.
Qed.

Lemma unmatched_not_found pattern P line :
  compile pattern = Returned (items_regex P) -> well_formed P = true ->
  found P None line = false -> unmatched line pattern.
Proof.
  intros Hc Hwf Hf. unfold unmatched, re_search. rewrite Hc. cbn [bind].
  now rewrite search_not_found.
Qed.

Lemma compile_any_annotation : compile (str ":\s*any\b") = Returned (items_regex any_annotation).
Proof. reflexivity. Qed.
Lemma compile_any_generic : compile (str "<any>") = Returned (items_regex any_generic).
Proof. reflexivity. Qed.
Lemma compile_any_cast : compile (str "\bas\s+any\b") = Returned (items_regex any_cast).
Proof. reflexivity. Qed.
Lemma compile_empty_annotation :
  compile (str ":\s*\{\s*\}") = Returned (items_regex empty_annotation).
Proof. reflexivity. Qed.
Lemma compile_empty_generic :
  compile (str "<\{\s*\}>") = Returned (items_regex empty_generic).
Proof. reflexivity. Qed.

Lemma plain_template s : no_backslash (str s) -> exists t, expand_template (str s) = Returned t.
Proof. intros Hs. eexists. now apply expand_template_plain. Qed.

(** After explicit_any, none of its three patterns is found in the
    line: every occurrence was replaced, and a second run changes
    nothing. *)
Lemma explicit_any_rule_settles line :
  exists out,
    explicit_any_rule line = Returned out /\
    Forall (unmatched out) [str ":\s*any\b"; str "<any>"; str "\bas\s+any\b"] /\
    explicit_any_rule out = Returned out.
Proof.
  unfold explicit_any_rule.
  rewrite (re_sub_scan (str ":\s*any\b") (str ": unknown") any_annotation (str ": unknown") line
             compile_any_annotation Logic.eq_refl Logic.eq_refl). cbn [bind].
  set (l1 := scan any_annotation _ _ None line).
  rewrite (re_sub_scan (str "<any>") (str "<unknown>") any_generic (str "<unknown>") l1
             compile_any_generic Logic.eq_refl Logic.eq_refl). cbn [bind].
  set (l2 := scan any_generic _ _ None l1).
  rewrite (re_sub_scan (str "\bas\s+any\b") (str "as unknown") any_cast (str "as unknown") l2
             compile_any_cast Logic.eq_refl Logic.eq_refl).
  set (l3 := scan any_cast _ _ None l2).
  assert (H11 : found any_annotation None l1 = false)
    by (apply scan_clears; [reflexivity..|now left]).
  assert (H12 : found any_annotation None l2 = false)
    by (apply scan_clears; [reflexivity..|now right]).
  assert (H13 : found any_annotation None l3 = false)
    by (apply scan_clears; [reflexivity..|now right]).
  assert (H22 : found any_generic None l2 = false)
    by (apply scan_clears; [reflexivity..|now left]).
  assert (H23 : found any_generic None l3 = false)
    by (apply scan_clears; [reflexivity..|now right]).
  assert (H33 : found any_cast None l3 = false)
    by (apply scan_clears; [reflexivity..|now left]).
  assert (U1 : unmatched l3 (str ":\s*any\b"))
    by (now apply (unmatched_not_found _ any_annotation)).
  assert (U2 : unmatched l3 (str "<any>"))
    by (now apply (unmatched_not_found _ any_generic)).
  assert (U3 : unmatched l3 (str "\bas\s+any\b"))
    by (now apply (unmatched_not_found _ any_cast)).
  exists l3. split; [reflexivity|]. split; [repeat constructor; assumption|].
  rewrite (re_sub_unmatched _ _ _ _ U1) by (apply plain_template; plain_literal).
  cbn [bind].
  rewrite (re_sub_unmatched _ _ _ _ U2) by (apply plain_template; plain_literal).
  cbn [bind].
  apply (re_sub_unmatched _ _ _ _ U3). apply plain_template; plain_literal.
Qed.

Lemma empty_object_rule_settles line :
  exists out,
    empty_object_rule line = Returned out /\
    Forall (unmatched out) [str ":\s*\{\s*\}"; str "<\{\s*\}>"] /\
    empty_object_rule out = Returned out.
Proof.
  unfold empty_object_rule.
  rewrite (re_sub_scan (str ":\s*\{\s*\}") (str ": unknown") empty_annotation (str ": unknown") line
             compile_empty_annotation Logic.eq_refl Logic.eq_refl). cbn [bind].
  set (l1 := scan empty_annotation _ _ None line).
  rewrite (re_sub_scan (str "<\{\s*\}>") (str "<unknown>") empty_generic (str "<unknown>") l1
             compile_empty_generic Logic.eq_refl Logic.eq_refl).
  set (l2 := scan empty_generic _ _ None l1).
  assert (H11 : found empty_annotation None l1 = false)
    by (apply scan_clears; [reflexivity..|now left]).
  assert (H12 : found empty_annotation None l2 = false)
    by (apply scan_clears; [reflexivity..|now right]).
  assert (H22 : found empty_generic None l2 = false)
    by (apply scan_clears; [reflexivity..|now left]).
  assert (U1 : unmatched l2 (str ":\s*\{\s*\}"))
    by (now apply (unmatched_not_found _ empty_annotation)).
  assert (U2 : unmatched l2 (str "<\{\s*\}>"))
    by (now apply (unmatched_not_found _ empty_generic)).
  exists l2. split; [reflexivity|]. split; [repeat constructor; assumption|].
  rewrite (re_sub_unmatched _ _ _ _ U1) by (apply plain_template; plain_literal).
  cbn [bind].
  apply (re_sub_unmatched _ _ _ _ U2). apply plain_template; plain_literal.
Qed.


Lemma re_sub_no_newline pattern repl s count out :
  compiles pattern -> expands repl -> no_newline s ->
  re_sub pattern repl s count = Returned out -> no_newline out.
Proof.
  intros Hc He Hs H.
  destruct (re_sub_line pattern repl s count Hc He Hs) as (out' & H' & Hnl). congruence.
Qed.

Lemma explicit_any_rule_no_newline line out :
  no_newline line -> explicit_any_rule line = Returned out -> no_newline out.
Proof.
  unfold explicit_any_rule. intros Hl.
  destruct (re_sub _ _ line 0) as [l1| | |] eqn:E1; try discriminate. cbn [bind].
  destruct (re_sub _ _ l1 0) as [l2| | |] eqn:E2; try discriminate. cbn [bind].
  intros E3.
  apply re_sub_no_newline in E1; [|compiles_literal|expands_literal|assumption].
  apply re_sub_no_newline in E2; [|compiles_literal|expands_literal|assumption].
  apply re_sub_no_newline in E3; [assumption|compiles_literal|expands_literal|assumption].
Qed.

Lemma empty_object_rule_no_newline line out :
  no_newline line -> empty_object_rule line = Returned out -> no_newline out.
Proof.
  unfold empty_object_rule. intros Hl.
  destruct (re_sub _ _ line 0) as [l1| | |] eqn:E1; try discriminate. cbn [bind].
  intros E2.
  apply re_sub_no_newline in E1; [|compiles_literal|expands_literal|assumption].
  apply re_sub_no_newline in E2; [assumption|compiles_literal|expands_literal|assumption].
Qed.



(** ** Two examples of the specification *)

Example spec_example_unused_var :
  fix_unused_var (str "const data = fetch();") 1 (str "data")
  = Returned (str "const _data = fetch();").
Proof. vm_compute. reflexivity. Qed.

Example spec_example_unused_param :
  fix_unused_request_param (str "export async function GET(request: Request) {") 1
  = Returned (str "export async function GET(_request: Request) {").
Proof. vm_compute. reflexivity. Qed.

(** ** Words that a pattern holds *)

Lemma starts_with_occurs w u : starts_with w u = true -> occurs w u = true.
Proof. intros H. destruct u; simpl; rewrite H; reflexivity. Qed.

Lemma occurs_cons w x u : occurs w u = true -> occurs w (x :: u) = true.
Proof. intros H. cbn [occurs]. rewrite H. apply orb_true_r. Qed.

Lemma occurs_suffix w u' u : u' `suffix_of` u -> occurs w u' = true -> occurs w u = true.
Proof.
  intros [k ->]. induction k as [|x k IH]; intros H; [exact H|].
  simpl app. apply occurs_cons. now apply IH.
Qed.

Lemma dmatch_lits_starts w : forall l before u st',
  dmatch (lits w ++ l) (before, u) = Some st' -> starts_with w u = true.
Proof.
  induction w as [|c w IH]; intros l before u st'; [reflexivity|].
  simpl. destruct u as [|x u]; [discriminate|].
  destruct (Ascii.eqb c x); [|discriminate]. simpl. apply IH.
Qed.

(** A match of a pattern that holds the characters of [w] in a row
    needs [w] in the text. *)
Lemma dmatch_occurs w post pre : forall before u st',
  dmatch (pre ++ lits w ++ post) (before, u) = Some st' -> occurs w u = true.
Proof.
  induction pre as [|[c|[]|] pre IH]; intros before u st'.
  - intros H. apply starts_with_occurs. exact (dmatch_lits_starts _ _ _ _ _ H).
  - simpl. destruct u as [|x u]; [discriminate|].
    destruct (Ascii.eqb c x); [|discriminate].
    intros H. apply occurs_cons. exact (IH _ _ _ H).
  - simpl. destruct u as [|x u]; [discriminate|].
    destruct (is_space x); [|discriminate].
    destruct (skip_spaces (Some x) u) as [b1 u1] eqn:K.
    intros H. apply occurs_cons. apply (occurs_suffix w u1).
    + pose proof (skip_spaces_suffix u (Some x)) as Hs. now rewrite K in Hs.
    + exact (IH _ _ _ H).
  - simpl. destruct (skip_spaces before u) as [b1 u1] eqn:K.
    intros H. apply (occurs_suffix w u1).
    + pose proof (skip_spaces_suffix u before) as Hs. now rewrite K in Hs.
    + exact (IH _ _ _ H).
  - simpl. destruct (at_boundary (before, u)); [|discriminate]. apply IH.
Qed.

Lemma found_occurs w pre post : forall u before,
  occurs w u = false -> found (pre ++ lits w ++ post) before u = false.
Proof.
  induction u as [|x u IH]; intros before Ho; cbn [found].
  - destruct (dmatch _ (before, [])) eqn:D; [|reflexivity].
    apply dmatch_occurs in D. congruence.
  - destruct (dmatch _ (before, x :: u)) eqn:D.
    + apply dmatch_occurs in D. congruence.
    + apply IH. cbn [occurs] in Ho. now apply orb_false_iff in Ho as [_ Ho].
Qed.

(** A pattern that compiles to such items is not found in a line
    without the word. *)
Lemma unmatched_absent pattern w pre post line :
  compile pattern = Returned (items_regex (pre ++ lits w ++ post)) ->
  well_formed (pre ++ lits w ++ post) = true ->
  occurs w line = false -> unmatched line pattern.
Proof.
  intros Hc Hwf Ho. apply (unmatched_not_found _ _ _ Hc Hwf). now apply found_occurs.
Qed.

Lemma item_regex_lits w : map item_regex (lits w) = map Lit w.
Proof. unfold lits. rewrite map_map. reflexivity. Qed.

(** Reading a pattern of the source with a spliced identifier, up to
    the sequence of its items. *)
Ltac compile_to_items Hv :=
  unfold compile; cbn [str list_ascii_of_string app];
  repeat first
    [ progress simpl
    | progress unfold repeat_last, push, empty_frame
    | rewrite (modifier_follows_identifier _ _ Hv) by reflexivity
    | rewrite (parse_loop_identifier _ _ _ _ Hv) ];
  unfold close_frame; cbn [items alts rev app];
  rewrite ?rev_app_distr, ?rev_involutive; cbn [rev app];
  rewrite <- ?app_assoc;
  unfold items_regex, keyword_name, name_then, assigned_name, lits;
  cbn [str list_ascii_of_string map app mk_alt];
  rewrite ?map_app, ?map_map; cbn [map item_regex]; reflexivity.

Lemma compile_var_patterns name :
  identifier name ->
  map (fun pr => compile (fst pr)) (var_patterns name)
  = map (fun l => Returned (items_regex l)) (var_items name).
Proof.
  intros Hv. unfold var_patterns, var_items. cbn [map fst].
  repeat match goal with
         | |- _ :: _ = _ :: _ => f_equal; [compile_to_items Hv|]
         end.
  f_equal. compile_to_items Hv.
Qed.

Lemma ident_char_not_space c : ident_char c = true -> is_space c = false.
Proof. destruct c as [[] [] [] [] [] [] [] []]; intros H; try discriminate H; reflexivity. Qed.

Lemma ident_char_word c : ident_char c = true -> is_word c = true.
Proof. destruct c as [[] [] [] [] [] [] [] []]; intros H; try discriminate H; reflexivity. Qed.

Lemma space_not_word c : is_space c = true -> is_word c = false.
Proof. destruct c as [[] [] [] [] [] [] [] []]; intros H; try discriminate H; reflexivity. Qed.

Lemma well_formed_lits w l : well_formed (lits w ++ l) = well_formed l.
Proof. induction w as [|c w IH]; [reflexivity|exact IH]. Qed.

Lemma occurs_nil u : occurs [] u = true.
Proof. destruct u; reflexivity. Qed.

Lemma var_items_well_formed name :
  identifier name -> name <> [] -> Forall (fun l => well_formed l = true) (var_items name).
Proof.
  intros Hv Hne. destruct name as [|c name]; [congruence|].
  apply identifier_cons in Hv as [Hc _]. apply ident_char_not_space in Hc.
  unfold var_items, keyword_name, name_then, assigned_name.
  repeat constructor; cbn [well_formed];
    rewrite ?well_formed_lits; cbn [lits map app well_formed];
    rewrite ?Hc; cbn [negb andb]; rewrite ?(well_formed_lits name); reflexivity.
Qed.

Lemma doc_line_in_bounds content line_num :
  in_bounds line_num (split_lines content) = true ->
  doc_line content line_num = Some (line_at (split_lines content) line_num).
Proof.
  intros Hb. unfold doc_line. pose proof (proj1 (in_bounds_range _ _) Hb) as Hr.
  destruct (1 <=? line_num)%Z eqn:E; [|apply Z.leb_gt in E; lia].
  now apply line_at_lookup.
Qed.

Lemma keyword_name_shape keyword name :
  keyword_name keyword name
  = (IBound :: lits keyword ++ [ISpaces true]) ++ lits name ++ [IBound].
Proof. unfold keyword_name. cbn [app]. f_equal. now rewrite <- app_assoc. Qed.

Lemma var_patterns_absent name line :
  identifier name -> occurs name line = false ->
  Forall (fun pr => unmatched line (fst pr)) (var_patterns name).
Proof.
  intros Hv Ho.
  assert (Hne : name <> []) by (intros ->; now rewrite occurs_nil in Ho).
  pose proof (compile_var_patterns name Hv) as Hc.
  pose proof (var_items_well_formed name Hv Hne) as Hwf.
  unfold var_patterns, var_items in *. cbn [map fst] in Hc.
  injection Hc as H1 H2 H3 H4 H5 H6.
  inversion Hwf as [|? ? W1 Hwf1]; subst. inversion Hwf1 as [|? ? W2 Hwf2]; subst.
  inversion Hwf2 as [|? ? W3 Hwf3]; subst. inversion Hwf3 as [|? ? W4 Hwf4]; subst.
  inversion Hwf4 as [|? ? W5 Hwf5]; subst. inversion Hwf5 as [|? ? W6 _]; subst.
  rewrite keyword_name_shape in H1, W1, H2, W2.
  repeat constructor; cbn [fst].
  - exact (unmatched_absent _ name _ _ line H1 W1 Ho).
  - exact (unmatched_absent _ name _ _ line H2 W2 Ho).
  - exact (unmatched_absent _ name [IBound] [ISpaces false; ILit ":"] line H3 W3 Ho).
  - exact (unmatched_absent _ name [IBound] [ISpaces false; ILit ")"] line H4 W4 Ho).
  - exact (unmatched_absent _ name [IBound] [ISpaces false; ILit ","] line H5 W5 Ho).
  - exact (unmatched_absent _ name [ILit "="; ISpaces false] [IBound] line H6 W6 Ho).
Qed.

Lemma rule_absent content line_num rule :
  (forall line, doc_line content line_num = Some line -> rule line = Returned line) ->
  in_bounds line_num (split_lines content) = true ->
  on_target content line_num rule = Returned content.
Proof.
  intros H Hb. apply on_target_same; [assumption|].
  apply H. now apply doc_line_in_bounds.
Qed.

(** ** A match of a pattern with a name *)

Lemma dmatch_lits_exact w l : forall before u,
  dmatch (lits w ++ l) (before, w ++ u)
  = dmatch l (match last w with Some c => Some c | None => before end, u).
Proof.
  induction w as [|c w IH]; intros before u; [reflexivity|].
  cbn [lits map app dmatch snd]. rewrite Ascii.eqb_refl.
  change (map ILit w) with (lits w). rewrite IH, last_cons. now destruct (last w).
Qed.

Lemma skip_spaces_run ws : all_space ws -> forall before u,
  match u with [] => True | x :: _ => is_space x = false end ->
  skip_spaces before (ws ++ u)
  = (match last ws with Some c => Some c | None => before end, u).
Proof.
  induction 1 as [|w ws Hw _ IH]; intros before u Hu.
  - destruct u as [|x u]; [reflexivity|]. simpl. now rewrite Hu.
  - cbn [app skip_spaces]. rewrite Hw, (IH (Some w) u Hu), last_cons.
    now destruct (last ws).
Qed.

(** The search walks over leading whitespace: a pattern that starts
    with a word boundary cannot start there. *)
Lemma search_past_indent l indent :
  well_formed (IBound :: l) = true -> all_space indent ->
  forall before u st',
    wordness before = false ->
    dmatch (IBound :: l)
      (match last indent with Some c => Some c | None => before end, u) = Some st' ->
    search_from (items_regex (IBound :: l)) before (indent ++ u) false
    = Some (indent, st').
Proof.
  intros Hwf Hi. induction Hi as [|x indent Hx _ IH]; intros before u st' Hb D.
  - cbn [app last] in *. destruct u as [|y u]; cbn [search_from];
      rewrite (ends_items _ Hwf), D; reflexivity.
  - cbn [app search_from]. rewrite (ends_items _ Hwf).
    assert (Hnone : dmatch (IBound :: l) (before, x :: indent ++ u) = None).
    { cbn [dmatch]. rewrite at_boundary_cons, Hb, (space_not_word x Hx). reflexivity. }
    rewrite Hnone. cbn [option_list pick find].
    rewrite (IH (Some x) u st'); [reflexivity|now apply space_not_word|].
    rewrite last_cons in D. now destruct (last indent).
Qed.

(** [re.sub] with [count=1]: the leftmost match is replaced and the
    rest of the subject is kept. *)
Lemma re_sub_first_match pattern repl s r t skipped before' u' :
  compile pattern = Returned r -> expand_template repl = Returned t ->
  search_from r None s false = Some (skipped, (before', u')) ->
  re_sub pattern repl s 1 = Returned (skipped ++ t ++ u').
Proof.
  intros Hc Ht Hs. unfold re_sub. rewrite Hc, Ht. cbn [bind].
  replace (2 * length s + 2)%nat with (S (S (2 * length s))) by lia.
  cbn [sub_loop Nat.eqb Nat.leb negb andb]. rewrite Hs. reflexivity.
Qed.

Lemma identifier_last name :
  identifier name -> name <> [] -> exists c, last name = Some c /\ ident_char c = true.
Proof.
  intros Hv Hne. destruct (last name) as [c|] eqn:L.
  - exists c. split; [reflexivity|].
    apply last_Some_elem_of, list_elem_of_In in L.
    unfold identifier in Hv. rewrite forallb_forall in Hv. now apply Hv.
  - apply last_None in L. congruence.
Qed.

Lemma const_declaration_match name ws rest before :
  identifier name -> name <> [] -> all_space ws -> ws <> [] -> ends_word rest ->
  wordness before = false ->
  exists c, last name = Some c /\
    dmatch (keyword_name (str "const") name) (before, str "const" ++ ws ++ name ++ rest)
    = Some (Some c, rest).
Proof.
  intros Hv Hne Hws Hwsne Hrest Hb.
  destruct (identifier_last name Hv Hne) as (c & Hlast & Hc).
  exists c. split; [assumption|].
  unfold keyword_name. cbn [dmatch].
  change (str "const" ++ ws ++ name ++ rest) with ("c" :: str "onst" ++ ws ++ name ++ rest).
  rewrite at_boundary_cons, Hb. cbn [xorb].
  change ("c" :: str "onst" ++ ws ++ name ++ rest) with (str "const" ++ ws ++ name ++ rest).
  replace (is_word "c") with true by reflexivity.
  rewrite dmatch_lits_exact. cbn [last str list_ascii_of_string].
  destruct ws as [|w ws']; [congruence|]. inversion Hws as [|? ? Hw Hws']; subst.
  cbn [app dmatch snd]. rewrite Hw.
  destruct name as [|n0 name']; [congruence|].
  pose proof (proj1 (identifier_cons n0 name') Hv) as [Hn0 _].
  rewrite (skip_spaces_run ws' Hws' (Some w) ((n0 :: name') ++ rest))
    by (cbn [app]; now apply ident_char_not_space).
  rewrite dmatch_lits_exact, Hlast. cbn [dmatch].
  unfold at_boundary, word_before, word_after. cbn [fst snd].
  rewrite (ident_char_word c Hc).
  destruct rest as [|x rest']; cbn [xorb]; [reflexivity|].
  simpl in Hrest. now rewrite Hrest.
Qed.


(** ** The words of a line *)














(** ** What a match of a pattern with a name looks like *)









Lemma last_or_default (w : text) (before : option ascii) :
  w <> [] -> match last w with Some c => Some c | None => before end = last w.
Proof. intros H. destruct (last w) eqn:L; [reflexivity|]. apply last_None in L. congruence. Qed.




(** ** A second application of a first-match rule *)











(** ** A second application to the document *)




(** * The claims of the specification *)

(** C1, on the code: unused_param calls [re.sub] without a count, so
    the sub-pattern that wins is replaced at every match in the line,
    not only at the leftmost one; unused_var passes [count=1] and
    replaces the leftmost match only.  In both, the first sub-pattern
    found in the line is the only one applied. *)
Theorem unused_param_replaces_every_match :
  fix_unused_request_param
    (str "function handler(request: Request, cb: (request: Request) => void) {") 1
  = Returned (str "function handler(_request: Request, cb: (_request: Request) => void) {") /\
  fix_unused_var
    (str "function handler(data: Data, cb: (data: Data) => void) {") 1 (str "data")
  = Returned (str "function handler(_data: Data, cb: (data: Data) => void) {") /\
  fix_unused_request_param (str "f(request: A, request: B)") 1
  = Returned (str "f(_request: A, _request: B)") /\
  fix_unused_var (str "f(data: A, data: B)") 1 (str "data")
  = Returned (str "f(_data: A, data: B)").
Proof. repeat split; vm_compute; reflexivity. Qed.

(** C2, as stated, fails: a detail with an alternation and a newline
    makes unused_var put a newline into line 1, and what was line 2 is
    no longer line 2. *)
Lemma other_lines_changed_by_newline_in_detail :
  ~ (forall fix_type content line_num detail out k,
       apply fix_type content line_num detail = Returned out ->
       k <> line_num -> doc_line out k = doc_line content k).
Proof.
  intros H.
  specialize (H (str "unused_var") (str "const x" ++ NL :: str "y") 1%Z
                (str "x|" ++ [NL]) (str "const _x|" ++ NL :: NL :: str "y") 2%Z).
  assert (E : doc_line (str "const _x|" ++ NL :: NL :: str "y") 2
              = doc_line (str "const x" ++ NL :: str "y") 2).
  { apply H; [vm_compute; reflexivity | discriminate]. }
  vm_compute in E. discriminate E.
Qed.

(** C2, amended. Where the detail is an identifier, or the rule does not
    read it, the rewrite returns a document in which every line other
    than the target line is the line of the input document. *)
Theorem other_lines_unchanged (fix_type content : text) (line_num : Z) (detail : text) :
  (uses_detail fix_type = true -> identifier detail) ->
  exists out,
    apply fix_type content line_num detail = Returned out /\
    forall k, k <> line_num -> doc_line out k = doc_line content k.
Proof.
  intros Hd. destruct (in_bounds line_num (split_lines content)) eqn:Hb.
  - destruct (apply_in_bounds fix_type content line_num detail Hd Hb) as (new & Hnl & ->).
    eexists. split; [reflexivity|]. intros k Hk.
    now apply doc_line_rewritten_other.
  - rewrite apply_out_of_bounds by assumption. eauto.
Qed.

(** C2 on a document of two lines, the second one the target. *)
Lemma other_lines_unchanged_witness :
  exists out,
    apply (str "unused_var") (str "const data = 1;" ++ NL :: str "let data = 2;") 2
      (str "data") = Returned out /\
    forall k, k <> 2%Z ->
      doc_line out k = doc_line (str "const data = 1;" ++ NL :: str "let data = 2;") k.
Proof.
  apply (other_lines_unchanged (str "unused_var")
           (str "const data = 1;" ++ NL :: str "let data = 2;") 2 (str "data")).
  intros _. reflexivity.
Defined.

(** C3, as stated, fails: the name is spliced into the pattern as it is,
    and with an opening parenthesis for a name the first pattern of
    unused_var does not compile; [re.search] raises [re.error]. *)
Lemma unused_var_raises_on_open_paren :
  fix_unused_var (str "x") 1 (str "(") = Raised MissingParen /\
  ~ (forall content line_num detail,
       exists out, fix_unused_var content line_num detail = Returned out).
Proof.
  assert (E : fix_unused_var (str "x") 1 (str "(") = Raised MissingParen)
    by (vm_compute; reflexivity).
  split; [exact E|]. intros H.
  destruct (H (str "x") 1%Z (str "(")) as [out Hout]. congruence.
Qed.

(** C3, amended. For every content, every integer line number and every
    detail that is an identifier, each of the five rule functions
    returns normally; and where none of its patterns is found in the
    target line, a rule returns the content unchanged. *)
Theorem rules_return_on_identifiers (content : text) (line_num : Z) (detail : text) :
  identifier detail ->
  let line := line_at (split_lines content) line_num in
  ((exists out, fix_unused_request_param content line_num = Returned out) /\
   (exists out, fix_unused_var content line_num detail = Returned out) /\
   (exists out, fix_explicit_any content line_num = Returned out) /\
   (exists out, fix_empty_object_type content line_num = Returned out) /\
   (exists out, remove_unused_import content line_num detail = Returned out)) /\
  ((Forall (fun pr => unmatched line (fst pr)) request_patterns ->
    fix_unused_request_param content line_num = Returned content) /\
   (Forall (fun pr => unmatched line (fst pr)) (var_patterns detail) ->
    fix_unused_var content line_num detail = Returned content) /\
   (Forall (unmatched line) [str ":\s*any\b"; str "<any>"; str "\bas\s+any\b"] ->
    fix_explicit_any content line_num = Returned content) /\
   (Forall (unmatched line) [str ":\s*\{\s*\}"; str "<\{\s*\}>"] ->
    fix_empty_object_type content line_num = Returned content) /\
   (re_match (str "import\s+\{\s*" ++ detail ++ str "\s*\}") line = Returned None ->
    Forall (unmatched line)
      [str ",?\s*" ++ detail ++ str "\s*,?"; str ",\s*,"; str "\{\s*,"; str ",\s*\}"] ->
    remove_unused_import content line_num detail = Returned content)).
Proof.
  intros Hd line.
  destruct (in_bounds line_num (split_lines content)) eqn:Hb.
  - split.
    + destruct (fix_unused_request_param_in_bounds content line_num Hb) as (n1 & _ & ->).
      destruct (fix_unused_var_in_bounds content line_num detail Hd Hb) as (n2 & _ & ->).
      destruct (fix_explicit_any_in_bounds content line_num Hb) as (n3 & _ & ->).
      destruct (fix_empty_object_type_in_bounds content line_num Hb) as (n4 & _ & ->).
      destruct (remove_unused_import_in_bounds content line_num detail Hd Hb)
        as (n5 & _ & ->).
      repeat split; eexists; reflexivity.
    + assert (Hplain : forall s, no_backslash (str s) ->
                exists t, expand_template (str s) = Returned t)
        by (intros s Hs; eexists; now apply expand_template_plain).
      repeat split.
      * intros H. rewrite fix_unused_request_param_on_target by assumption.
        apply on_target_same; [assumption|]. now apply first_match_rule_unmatched.
      * intros H. rewrite fix_unused_var_on_target by assumption.
        apply on_target_same; [assumption|]. now apply first_match_rule_unmatched.
      * intros H. rewrite fix_explicit_any_on_target by assumption.
        apply on_target_same; [assumption|]. unfold explicit_any_rule. fold line.
        inversion H as [|? ? H1 H']; subst. inversion H' as [|? ? H2 H'']; subst.
        inversion H'' as [|? ? H3 _]; subst.
        rewrite (re_sub_unmatched _ _ _ _ H1) by (apply Hplain; plain_literal). cbn [bind].
        rewrite (re_sub_unmatched _ _ _ _ H2) by (apply Hplain; plain_literal). cbn [bind].
        apply (re_sub_unmatched _ _ _ _ H3). apply Hplain; plain_literal.
      * intros H. rewrite fix_empty_object_type_on_target by assumption.
        apply on_target_same; [assumption|]. unfold empty_object_rule. fold line.
        inversion H as [|? ? H1 H']; subst. inversion H' as [|? ? H2 _]; subst.
        rewrite (re_sub_unmatched _ _ _ _ H1) by (apply Hplain; plain_literal). cbn [bind].
        apply (re_sub_unmatched _ _ _ _ H2). apply Hplain; plain_literal.
      * intros Hm H. rewrite remove_unused_import_on_target by assumption.
        apply on_target_same; [assumption|]. unfold unused_import_rule. fold line.
        rewrite Hm. cbn [bind].
        inversion H as [|? ? H1 H']; subst. inversion H' as [|? ? H2 H'']; subst.
        inversion H'' as [|? ? H3 H''']; subst. inversion H''' as [|? ? H4 _]; subst.
        rewrite (re_sub_unmatched _ _ _ _ H1) by (now exists []). cbn [bind].
        rewrite (re_sub_unmatched _ _ _ _ H2) by (apply Hplain; plain_literal). cbn [bind].
        rewrite (re_sub_unmatched _ _ _ _ H3) by (apply Hplain; plain_literal). cbn [bind].
        apply (re_sub_unmatched _ _ _ _ H4). apply Hplain; plain_literal.
  - destruct (rules_out_of_bounds content line_num detail Hb)
      as (-> & -> & -> & -> & ->).
    repeat split; eauto.
Qed.

(** C3 on the example line of the specification, with detail [data]. *)
Lemma rules_return_on_identifiers_witness :
  let content := str "const data = fetch();" in
  let line := line_at (split_lines content) 1 in
  ((exists out, fix_unused_request_param content 1 = Returned out) /\
   (exists out, fix_unused_var content 1 (str "data") = Returned out) /\
   (exists out, fix_explicit_any content 1 = Returned out) /\
   (exists out, fix_empty_object_type content 1 = Returned out) /\
   (exists out, remove_unused_import content 1 (str "data") = Returned out)) /\
  ((Forall (fun pr => unmatched line (fst pr)) request_patterns ->
    fix_unused_request_param content 1 = Returned content) /\
   (Forall (fun pr => unmatched line (fst pr)) (var_patterns (str "data")) ->
    fix_unused_var content 1 (str "data") = Returned content) /\
   (Forall (unmatched line) [str ":\s*any\b"; str "<any>"; str "\bas\s+any\b"] ->
    fix_explicit_any content 1 = Returned content) /\
   (Forall (unmatched line) [str ":\s*\{\s*\}"; str "<\{\s*\}>"] ->
    fix_empty_object_type content 1 = Returned content) /\
   (re_match (str "import\s+\{\s*" ++ str "data" ++ str "\s*\}") line = Returned None ->
    Forall (unmatched line)
      [str ",?\s*" ++ str "data" ++ str "\s*,?"; str ",\s*,"; str "\{\s*,"; str ",\s*\}"] ->
    remove_unused_import content 1 (str "data") = Returned content)).
Proof.
  apply (rules_return_on_identifiers (str "const data = fetch();") 1 (str "data")).
  reflexivity.
Defined.




(** The other first-match rule and the import rule are not idempotent
    either. *)
Example unused_var_not_idempotent :
  fix_unused_var (str "f(x, x)") 1 (str "x") = Returned (str "f(x, _x)") /\
  fix_unused_var (str "f(x, _x)") 1 (str "x") = Returned (str "f(_x, _x)").
Proof. split; vm_compute; reflexivity. Qed.

Example unused_import_not_idempotent :
  remove_unused_import (str "import { FFoooo, B }") 1 (str "Foo")
  = Returned (str "import { Foo, B }") /\
  remove_unused_import (str "import { Foo, B }") 1 (str "Foo")
  = Returned (str "import { B }").
Proof. split; vm_compute; reflexivity. Qed.

(** C5. With detail [Foo], a target line [import { Foo } from 'x';] is
    blanked: the line stays in the document, empty.  A target line
    [import { Foo, Bar } from 'x';] becomes [import { Bar } from 'x';]. *)
Theorem unused_import_examples :
  (forall content line_num,
     doc_line content line_num = Some (str "import { Foo } from 'x';") ->
     replaces_target content line_num []
       (remove_unused_import content line_num (str "Foo"))) /\
  (forall content line_num,
     doc_line content line_num = Some (str "import { Foo, Bar } from 'x';") ->
     replaces_target content line_num (str "import { Bar } from 'x';")
       (remove_unused_import content line_num (str "Foo"))).
Proof.
  split; intros content line_num Hl;
    (eapply replaces_target_intro; [exact Hl | no_newline_literal |]);
    rewrite remove_unused_import_on_target by (now apply doc_line_Some in Hl);
    (eapply on_target_line; [exact Hl|]); vm_compute; reflexivity.
Qed.

(** C5 on the two lines of the claim, alone and after another line. *)
Lemma unused_import_examples_witness :
  replaces_target (str "import { Foo } from 'x';") 1 []
    (remove_unused_import (str "import { Foo } from 'x';") 1 (str "Foo")) /\
  replaces_target (str "a" ++ NL :: str "import { Foo, Bar } from 'x';") 2
    (str "import { Bar } from 'x';")
    (remove_unused_import (str "a" ++ NL :: str "import { Foo, Bar } from 'x';") 2
       (str "Foo")).
Proof.
  split.
  - apply (proj1 unused_import_examples (str "import { Foo } from 'x';") 1%Z).
    reflexivity.
  - apply (proj2 unused_import_examples
             (str "a" ++ NL :: str "import { Foo, Bar } from 'x';") 2%Z).
    reflexivity.
Defined.

(** C6. The explicit_any rule runs its three substitutions one after the
    other on the target line, each without a count, so each replaces
    every occurrence: in the line that results none of the three
    patterns is found any more.  [function f(x: any): any {] becomes
    [function f(x: unknown): unknown {], and a line with two occurrences
    of each of the three forms has all six replaced. *)
Theorem explicit_any_applies_all :
  (forall content line_num line,
     doc_line content line_num = Some line ->
     exists line1 line2 line3,
       re_sub (str ":\s*any\b") (str ": unknown") line 0 = Returned line1 /\
       re_sub (str "<any>") (str "<unknown>") line1 0 = Returned line2 /\
       re_sub (str "\bas\s+any\b") (str "as unknown") line2 0 = Returned line3 /\
       replaces_target content line_num line3 (fix_explicit_any content line_num) /\
       Forall (unmatched line3) [str ":\s*any\b"; str "<any>"; str "\bas\s+any\b"]) /\
  (forall content line_num,
     doc_line content line_num = Some (str "function f(x: any): any {") ->
     replaces_target content line_num (str "function f(x: unknown): unknown {")
       (fix_explicit_any content line_num)) /\
  (forall content line_num,
     doc_line content line_num
     = Some (str "let a: any = <any>b as any, c:any = <any>(d as  any);") ->
     replaces_target content line_num
       (str "let a: unknown = <unknown>b as unknown, c: unknown = <unknown>(d as unknown);")
       (fix_explicit_any content line_num)).
Proof.
  split.
  { intros content line_num line Hl.
    destruct (explicit_any_rule_settles line) as (out & Hrule & Hun & _).
    pose proof (doc_line_Some _ _ _ Hl) as [Hb Hline].
    assert (Hnl : no_newline out).
    { apply (explicit_any_rule_no_newline line); [|assumption].
      rewrite <- Hline. now apply line_at_no_newline. }
    pose proof Hrule as Hsteps. unfold explicit_any_rule in Hsteps.
    destruct (re_sub _ _ line 0) as [line1| | |] eqn:E1; try discriminate.
    cbn [bind] in Hsteps.
    destruct (re_sub _ _ line1 0) as [line2| | |] eqn:E2; try discriminate.
    cbn [bind] in Hsteps.
    exists line1, line2, out.
    split; [reflexivity|]. split; [exact E2|]. split; [exact Hsteps|].
    split; [|exact Hun].
    apply (replaces_target_intro _ _ line); [assumption..|].
    rewrite fix_explicit_any_on_target by assumption.
    now apply (on_target_line _ _ _ line). }
  split; intros content line_num Hl;
    (eapply replaces_target_intro; [exact Hl | no_newline_literal |]);
    rewrite fix_explicit_any_on_target by (now apply doc_line_Some in Hl);
    (eapply on_target_line; [exact Hl|]); vm_compute; reflexivity.
Qed.

(** C6 on its two example lines. *)
Lemma explicit_any_applies_all_witness :
  replaces_target (str "function f(x: any): any {") 1
    (str "function f(x: unknown): unknown {")
    (fix_explicit_any (str "function f(x: any): any {") 1) /\
  replaces_target (str "let a: any = <any>b as any, c:any = <any>(d as  any);") 1
    (str "let a: unknown = <unknown>b as unknown, c: unknown = <unknown>(d as unknown);")
    (fix_explicit_any (str "let a: any = <any>b as any, c:any = <any>(d as  any);") 1).
Proof.
  split.
  - apply (proj1 (proj2 explicit_any_applies_all) (str "function f(x: any): any {") 1%Z).
    reflexivity.
  - apply (proj2 (proj2 explicit_any_applies_all)
             (str "let a: any = <any>b as any, c:any = <any>(d as  any);") 1%Z).
    reflexivity.
Defined.

(** C7, as stated, fails: with a newline in the detail, unused_var
    turns a document of one line into a document of two. *)
Lemma line_count_changed_by_newline_in_detail :
  ~ (forall fix_type content line_num detail out,
       apply fix_type content line_num detail = Returned out ->
       line_count out = line_count content).
Proof.
  intros H.
  specialize (H (str "unused_var") (str "const x") 1%Z (str "x|" ++ [NL])
                (str "const _x|" ++ [NL])).
  assert (E : line_count (str "const _x|" ++ [NL]) = line_count (str "const x")).
  { apply H. vm_compute. reflexivity. }
  vm_compute in E. discriminate E.
Qed.

(** C7, amended. Where the detail is an identifier, or the rule does not
    read it, the rewrite returns a document with as many lines as the
    input document. *)
Theorem line_count_preserved (fix_type content : text) (line_num : Z) (detail : text) :
  (uses_detail fix_type = true -> identifier detail) ->
  exists out,
    apply fix_type content line_num detail = Returned out /\
    line_count out = line_count content.
Proof.
  intros Hd. destruct (in_bounds line_num (split_lines content)) eqn:Hb.
  - destruct (apply_in_bounds fix_type content line_num detail Hd Hb) as (new & Hnl & ->).
    eexists. split; [reflexivity|]. now apply line_count_rewritten.
  - rewrite apply_out_of_bounds by assumption. eauto.
Qed.

(** C7 on a document of two lines whose first line is blanked. *)
Lemma line_count_preserved_witness :
  exists out,
    apply (str "unused_import") (str "import { Foo } from 'x';" ++ NL :: str "Foo();") 1
      (str "Foo") = Returned out /\
    line_count out = line_count (str "import { Foo } from 'x';" ++ NL :: str "Foo();").
Proof.
  apply (line_count_preserved (str "unused_import")
           (str "import { Foo } from 'x';" ++ NL :: str "Foo();") 1 (str "Foo")).
  intros _. reflexivity.
Defined.

(** C8. A line number out of bounds (zero, negative, or beyond the last
    line) makes each of the five rule functions return the document
    exactly as it was given, whatever the detail. *)
Theorem out_of_bounds_unchanged (content : text) (line_num : Z) (detail : text) :
  (line_num <= 0 \/ Z.of_nat (line_count content) < line_num)%Z ->
  fix_unused_request_param content line_num = Returned content /\
  fix_unused_var content line_num detail = Returned content /\
  fix_explicit_any content line_num = Returned content /\
  fix_empty_object_type content line_num = Returned content /\
  remove_unused_import content line_num detail = Returned content.
Proof.
  intros Hout. apply rules_out_of_bounds.
  destruct (in_bounds line_num (split_lines content)) eqn:E; [|reflexivity].
  apply in_bounds_range in E. unfold line_count in Hout. lia.
Qed.

(** C8 at line number 0, with a detail that would not compile. *)
Lemma out_of_bounds_unchanged_witness :
  let content := str "const data = fetch();" in
  fix_unused_request_param content 0 = Returned content /\
  fix_unused_var content 0 (str "(") = Returned content /\
  fix_explicit_any content 0 = Returned content /\
  fix_empty_object_type content 0 = Returned content /\
  remove_unused_import content 0 (str "(") = Returned content.
Proof.
  intros content. apply (out_of_bounds_unchanged content 0 (str "(")). left. lia.
Defined.

(** C9. The result of the unused_param rule does not depend on the
    detail: the dispatch passes only the content and the line number,
    and the rule always runs the three patterns of [request].  A
    parameter of another name is left alone even when the detail names
    it, and [request] is renamed whatever the detail says. *)
Theorem unused_param_ignores_detail :
  (forall content line_num detail1 detail2,
     apply (str "unused_param") content line_num detail1
     = apply (str "unused_param") content line_num detail2) /\
  (forall content line_num detail,
     apply (str "unused_param") content line_num detail
     = fix_unused_request_param content line_num) /\
  (forall content line_num,
     in_bounds line_num (split_lines content) = true ->
     fix_unused_request_param content line_num
     = on_target content line_num (first_match_rule 0 request_patterns)) /\
  apply (str "unused_param") (str "function GET(req: Request) {") 1 (str "req")
  = Returned (str "function GET(req: Request) {") /\
  apply (str "unused_param") (str "function GET(request: Request) {") 1 (str "req")
  = Returned (str "function GET(_request: Request) {").
Proof.
  split; [reflexivity|]. split; [reflexivity|].
  split; [exact fix_unused_request_param_on_target|].
  split; vm_compute; reflexivity.
Qed.

(** C9 on the example line of the specification. *)
Lemma unused_param_ignores_detail_witness :
  fix_unused_request_param (str "function GET(request: Request) {") 1
  = on_target (str "function GET(request: Request) {") 1
      (first_match_rule 0 request_patterns).
Proof.
  apply (proj1 (proj2 (proj2 unused_param_ignores_detail))
           (str "function GET(request: Request) {") 1%Z).
  reflexivity.
Defined.

(** C10. In the destructured branch the name is matched as a bare
    substring and removed wherever it occurs: with detail [Foo], the
    target line [import { Food, Foo } from 'x';] becomes
    [import {d} from 'x';]. *)
Theorem unused_import_bare_substring :
  compile (str ",?\s*" ++ str "Foo" ++ str "\s*,?")
  = Returned (mk_seq [Repeat QOpt (Lit ","); Repeat QStar (Cat CSpace false);
                      Lit "F"; Lit "o"; Lit "o";
                      Repeat QStar (Cat CSpace false); Repeat QOpt (Lit ",")]) /\
  (forall content line_num,
     doc_line content line_num = Some (str "import { Food, Foo } from 'x';") ->
     replaces_target content line_num (str "import {d} from 'x';")
       (remove_unused_import content line_num (str "Foo"))).
Proof.
  split; [reflexivity|]. intros content line_num Hl.
  eapply replaces_target_intro; [exact Hl | no_newline_literal |].
  rewrite remove_unused_import_on_target by (now apply doc_line_Some in Hl).
  eapply on_target_line; [exact Hl|]. vm_compute. reflexivity.
Qed.

(** C10 on the line of the claim. *)
Lemma unused_import_bare_substring_witness :
  replaces_target (str "import { Food, Foo } from 'x';") 1 (str "import {d} from 'x';")
    (remove_unused_import (str "import { Food, Foo } from 'x';") 1 (str "Foo")).
Proof.
  apply (proj2 unused_import_bare_substring (str "import { Food, Foo } from 'x';") 1%Z).
  reflexivity.
Defined.

(** * Further properties of the rules *)

(** ** What the result of a rule is made of *)

Lemma re_sub_Forall (P : ascii -> Prop) pattern repl s count out :
  (forall t, expand_template repl = Returned t -> Forall P t) ->
  Forall P s ->
  re_sub pattern repl s count = Returned out -> Forall P out.
Proof.
  intros Ht Hs. unfold re_sub.
  destruct (compile pattern) as [r| | |]; try discriminate. cbn [bind].
  destruct (expand_template repl) as [t| | |]; try discriminate. cbn [bind].
  apply sub_loop_Forall; [now apply Ht|assumption].
Qed.

Lemma first_match_rule_Forall (P : ascii -> Prop) count patterns line out :
  Forall (fun pr => forall t, expand_template (snd pr) = Returned t -> Forall P t) patterns ->
  Forall P line ->
  first_match_rule count patterns line = Returned out -> Forall P out.
Proof.
  intros Hp Hl. induction Hp as [|[pattern repl] more Ht _ IH]; simpl.
  - now intros [= <-].
  - destruct (re_search pattern line) as [[m|]| | |]; simpl; try discriminate.
    + now apply re_sub_Forall.
    + exact IH.
Qed.

Lemma plain_template_Forall (P : ascii -> Prop) repl :
  no_backslash repl -> Forall P repl ->
  forall t, expand_template repl = Returned t -> Forall P t.
Proof. intros Hb HP t. rewrite expand_template_plain by assumption. now intros [= <-]. Qed.

(** A rule that puts no newline into a line keeps the lines of the
    document where they are. *)
Lemma on_target_keeps_lines content line_num rule out :
  in_bounds line_num (split_lines content) = true ->
  (forall line new, no_newline line -> rule line = Returned new -> no_newline new) ->
  on_target content line_num rule = Returned out ->
  line_count out = line_count content /\
  (forall k, k <> line_num -> doc_line out k = doc_line content k).
Proof.
  intros Hb Hrule. unfold on_target.
  destruct (rule (line_at (split_lines content) line_num)) as [new| | |] eqn:E;
    try discriminate.
  cbn [bind]. intros [= <-].
  assert (Hnl : no_newline new)
    by (exact (Hrule _ _ (line_at_no_newline _ _ Hb) E)).
  split; [now apply line_count_rewritten|].
  intros k Hk. now apply doc_line_rewritten_other.
Qed.

Lemma var_patterns_templates var_name :
  no_backslash var_name -> no_newline var_name ->
  Forall (fun pr => forall t, expand_template (snd pr) = Returned t -> no_newline t)
    (var_patterns var_name).
Proof.
  intros Hb Hn. unfold var_patterns.
  repeat (constructor;
          [cbn [snd]; apply plain_template_Forall;
           [unfold no_backslash in *; rewrite ?Forall_app; repeat split;
            try assumption; plain_literal
           |unfold no_newline in *; rewrite ?Forall_app; repeat split;
            try assumption; plain_literal]|]).
  constructor.
Qed.

Lemma literal_template (P : ascii -> Prop) s :
  no_backslash (str s) -> Forall P (str s) ->
  forall t, expand_template (str s) = Returned t -> Forall P t.
Proof. apply plain_template_Forall. Qed.




(** X2. With a variable name that holds neither a newline nor a
    backslash and is written in the part of the pattern syntax that
    [compile] covers, a call of [fix_unused_var] that returns leaves
    the document with as many lines as before, and every line but the
    target line as it was. *)
Theorem unused_var_keeps_lines (content : text) (line_num : Z) (var_name out : text) :
  no_newline var_name -> no_backslash var_name ->
  fix_unused_var content line_num var_name = Returned out ->
  line_count out = line_count content /\
  (forall k, k <> line_num -> doc_line out k = doc_line content k).
Proof.
  intros Hn Hb.
  destruct (in_bounds line_num (split_lines content)) eqn:Hin.
  - rewrite fix_unused_var_on_target by assumption.
    apply on_target_keeps_lines; [assumption|].
    intros line new Hl. apply first_match_rule_Forall; [|assumption].
    now apply var_patterns_templates.
  - destruct (rules_out_of_bounds content line_num var_name Hin) as (_ & -> & _).
    intros [= <-]. now split.
Qed.

(** X2 with a name that is an alternation. *)
Lemma unused_var_keeps_lines_witness :
  line_count (str "const _x|y = 1;" ++ NL :: str "z")
  = line_count (str "const x = 1;" ++ NL :: str "z") /\
  (forall k, k <> 1%Z ->
     doc_line (str "const _x|y = 1;" ++ NL :: str "z") k
     = doc_line (str "const x = 1;" ++ NL :: str "z") k).
Proof.
  apply (unused_var_keeps_lines (str "const x = 1;" ++ NL :: str "z") 1 (str "x|y")).
  - plain_literal.
  - plain_literal.
  - vm_compute. reflexivity.
Defined.

(** ** The empty_object rule *)

(** X3. The empty_object rule runs its two substitutions one after the
    other on the target line, each at every occurrence: in the line
    that results neither pattern is found any more.  Whitespace inside
    the braces and after the colon goes with the match. *)
Theorem empty_object_applies_all :
  (forall content line_num line,
     doc_line content line_num = Some line ->
     exists line1 line2,
       re_sub (str ":\s*\{\s*\}") (str ": unknown") line 0 = Returned line1 /\
       re_sub (str "<\{\s*\}>") (str "<unknown>") line1 0 = Returned line2 /\
       replaces_target content line_num line2 (fix_empty_object_type content line_num) /\
       Forall (unmatched line2) [str ":\s*\{\s*\}"; str "<\{\s*\}>"]) /\
  (forall content line_num,
     doc_line content line_num
     = Some (str "function f(a:{ }, b:   {}): Map<{}> | Set<{  }> {") ->
     replaces_target content line_num
       (str "function f(a: unknown, b: unknown): Map<unknown> | Set<unknown> {")
       (fix_empty_object_type content line_num)).
Proof.
  split.
  { intros content line_num line Hl.
    destruct (empty_object_rule_settles line) as (out & Hrule & Hun & _).
    pose proof (doc_line_Some _ _ _ Hl) as [Hb Hline].
    assert (Hnl : no_newline out).
    { apply (empty_object_rule_no_newline line); [|assumption].
      rewrite <- Hline. now apply line_at_no_newline. }
    pose proof Hrule as Hsteps. unfold empty_object_rule in Hsteps.
    destruct (re_sub _ _ line 0) as [line1| | |] eqn:E1; try discriminate.
    cbn [bind] in Hsteps.
    exists line1, out.
    split; [reflexivity|]. split; [exact Hsteps|]. split; [|exact Hun].
    apply (replaces_target_intro _ _ line); [assumption..|].
    rewrite fix_empty_object_type_on_target by assumption.
    now apply (on_target_line _ _ _ line). }
  intros content line_num Hl.
  eapply replaces_target_intro; [exact Hl | no_newline_literal |].
  rewrite fix_empty_object_type_on_target by (now apply doc_line_Some in Hl).
  eapply on_target_line; [exact Hl|]. vm_compute. reflexivity.
Qed.

(** X3 on its example line. *)
Lemma empty_object_applies_all_witness :
  replaces_target (str "function f(a:{ }, b:   {}): Map<{}> | Set<{  }> {") 1
    (str "function f(a: unknown, b: unknown): Map<unknown> | Set<unknown> {")
    (fix_empty_object_type (str "function f(a:{ }, b:   {}): Map<{}> | Set<{  }> {") 1).
Proof.
  apply (proj2 empty_object_applies_all
           (str "function f(a:{ }, b:   {}): Map<{}> | Set<{  }> {") 1%Z).
  reflexivity.
Defined.

(** ** A rule leaves a line alone where its word is absent *)

(** X4. Where the text [request] does not occur in the target line,
    [fix_unused_request_param] returns the content as it is, whatever
    else the line holds. *)
Theorem unused_param_absent (content : text) (line_num : Z) :
  (forall line, doc_line content line_num = Some line ->
                occurs (str "request") line = false) ->
  fix_unused_request_param content line_num = Returned content.
Proof.
  intros Habs. destruct (in_bounds line_num (split_lines content)) eqn:Hb.
  - rewrite fix_unused_request_param_on_target by assumption.
    apply rule_absent; [|assumption]. intros line Hl. specialize (Habs line Hl).
    apply first_match_rule_unmatched. unfold request_patterns.
    repeat constructor; cbn [fst].
    + now apply (unmatched_absent _ (str "request") [IBound] [ISpaces false; ILit ":"]).
    + now apply (unmatched_absent _ (str "request") [IBound] [ISpaces false; ILit ")"]).
    + now apply (unmatched_absent _ (str "request") [IBound] [ISpaces false; ILit ","]).
  - now destruct (rules_out_of_bounds content line_num [] Hb) as (-> & _).
Qed.

(** X4 on a line with another parameter name. *)
Lemma unused_param_absent_witness :
  fix_unused_request_param (str "export async function GET(req: Request) {") 1
  = Returned (str "export async function GET(req: Request) {").
Proof.
  apply (unused_param_absent (str "export async function GET(req: Request) {") 1).
  intros line [= <-]. reflexivity.
Defined.

(** X5. Where the variable name is an identifier that does not occur in
    the target line, [fix_unused_var] returns the content as it is. *)
Theorem unused_var_absent (content : text) (line_num : Z) (var_name : text) :
  identifier var_name ->
  (forall line, doc_line content line_num = Some line -> occurs var_name line = false) ->
  fix_unused_var content line_num var_name = Returned content.
Proof.
  intros Hv Habs. destruct (in_bounds line_num (split_lines content)) eqn:Hb.
  - rewrite fix_unused_var_on_target by assumption.
    apply rule_absent; [|assumption]. intros line Hl. specialize (Habs line Hl).
    apply first_match_rule_unmatched. now apply var_patterns_absent.
  - now destruct (rules_out_of_bounds content line_num var_name Hb) as (_ & -> & _).
Qed.

(** X5 on a line that declares another variable. *)
Lemma unused_var_absent_witness :
  fix_unused_var (str "const rows = fetch();") 1 (str "data")
  = Returned (str "const rows = fetch();").
Proof.
  apply (unused_var_absent (str "const rows = fetch();") 1 (str "data")).
  - reflexivity.
  - intros line [= <-]. reflexivity.
Defined.

(** X6. [fix_explicit_any] returns the content as it is where [any]
    does not occur in the target line, and [fix_empty_object_type] where
    no opening brace occurs in it. *)
Theorem type_rules_absent (content : text) (line_num : Z) :
  ((forall line, doc_line content line_num = Some line -> occurs (str "any") line = false) ->
   fix_explicit_any content line_num = Returned content) /\
  ((forall line, doc_line content line_num = Some line -> occurs (str "{") line = false) ->
   fix_empty_object_type content line_num = Returned content).
Proof.
  assert (Hplain : forall s, no_backslash (str s) ->
            exists t, expand_template (str s) = Returned t)
    by (intros s Hs; eexists; now apply expand_template_plain).
  destruct (in_bounds line_num (split_lines content)) eqn:Hb.
  - split; intros Habs.
    + rewrite fix_explicit_any_on_target by assumption.
      apply rule_absent; [|assumption]. intros line Hl. specialize (Habs line Hl).
      unfold explicit_any_rule.
      rewrite (re_sub_unmatched (str ":\s*any\b") _ line 0)
        by (first [now apply (unmatched_absent _ (str "any") [ILit ":"; ISpaces false] [IBound])
                  |apply Hplain; plain_literal]).
      cbn [bind].
      rewrite (re_sub_unmatched (str "<any>") _ line 0)
        by (first [now apply (unmatched_absent _ (str "any") [ILit "<"] [ILit ">"])
                  |apply Hplain; plain_literal]).
      cbn [bind].
      apply re_sub_unmatched; [|apply Hplain; plain_literal].
      now apply (unmatched_absent _ (str "any") [IBound; ILit "a"; ILit "s"; ISpaces true]
                   [IBound]).
    + rewrite fix_empty_object_type_on_target by assumption.
      apply rule_absent; [|assumption]. intros line Hl. specialize (Habs line Hl).
      unfold empty_object_rule.
      rewrite (re_sub_unmatched (str ":\s*\{\s*\}") _ line 0)
        by (first [now apply (unmatched_absent _ (str "{") [ILit ":"; ISpaces false]
                                [ISpaces false; ILit "}"])
                  |apply Hplain; plain_literal]).
      cbn [bind].
      apply re_sub_unmatched; [|apply Hplain; plain_literal].
      now apply (unmatched_absent _ (str "{") [ILit "<"] [ISpaces false; ILit "}"; ILit ">"]).
  - destruct (rules_out_of_bounds content line_num [] Hb) as (_ & _ & -> & -> & _).
    now split.
Qed.

(** X6 on a line with neither. *)
Lemma type_rules_absent_witness :
  fix_explicit_any (str "const rows: Row[] = load();") 1
  = Returned (str "const rows: Row[] = load();") /\
  fix_empty_object_type (str "const rows: Row[] = load();") 1
  = Returned (str "const rows: Row[] = load();").
Proof.
  split.
  - apply (proj1 (type_rules_absent (str "const rows: Row[] = load();") 1)).
    intros line [= <-]. reflexivity.
  - apply (proj2 (type_rules_absent (str "const rows: Row[] = load();") 1)).
    intros line [= <-]. reflexivity.
Defined.

(** ** A declaration with [const] *)

(** X7 ([fix_unused_var], first pattern, [count=1]).  When the target
    line is a [const] declaration of the name, after any indentation and
    with any whitespace between keyword and name, the declared name gets
    the underscore prefix, the whitespace between keyword and name
    becomes one space, and the rest of the line is kept as it is, also
    where the name occurs again in it. *)
Theorem unused_var_const_declaration (content : text) (line_num : Z)
    (name indent ws rest : text) :
  identifier name -> name <> [] ->
  all_space indent -> all_space ws -> ws <> [] -> ends_word rest ->
  doc_line content line_num = Some (indent ++ str "const" ++ ws ++ name ++ rest) ->
  replaces_target content line_num (indent ++ str "const _" ++ name ++ rest)
    (fix_unused_var content line_num name).
Proof.
  intros Hv Hne Hi Hws Hwsne Hrest Hl.
  pose proof (doc_line_Some _ _ _ Hl) as [Hb Hline].
  pose proof (line_at_no_newline _ _ Hb) as Hnl. rewrite Hline in Hnl.
  unfold no_newline in Hnl. rewrite !Forall_app in Hnl.
  destruct Hnl as (Hnl1 & _ & _ & Hnl4 & Hnl5).
  apply (replaces_target_intro _ _ _ _ _ Hl).
  { unfold no_newline. rewrite !Forall_app. repeat split; try assumption.
    plain_literal. }
  rewrite (fix_unused_var_on_target _ _ _ Hb).
  apply (on_target_line _ _ _ _ _ Hl).
  assert (Hc : compile (str "\bconst\s+" ++ name ++ str "\b")
               = Returned (items_regex (keyword_name (str "const") name))).
  { pose proof (compile_var_patterns name Hv) as H.
    unfold var_patterns, var_items in H. cbn [map fst] in H.
    injection H as H _. exact H. }
  pose proof (var_items_well_formed name Hv Hne) as Hwf.
  unfold var_items in Hwf. apply Forall_cons in Hwf as [Hwf _].
  unfold var_patterns.
  destruct (const_declaration_match name ws rest (last indent) Hv Hne Hws Hwsne Hrest)
    as (c & _ & D).
  { destruct (last indent) as [x|] eqn:L; [|reflexivity].
    apply last_Some_elem_of in L. unfold all_space in Hi.
    rewrite Forall_forall in Hi. apply space_not_word, Hi, L. }
  assert (Hs : search_from (items_regex (keyword_name (str "const") name)) None
                 (indent ++ str "const" ++ ws ++ name ++ rest) false
               = Some (indent, (Some c, rest))).
  { unfold keyword_name in *. apply search_past_indent; try assumption; try reflexivity.
    now destruct (last indent). }
  cbn [first_match_rule]. unfold re_search. rewrite Hc. cbn [bind]. rewrite Hs.
  assert (Ht : no_backslash (str "const _" ++ name)).
  { unfold no_backslash. rewrite Forall_app. split; [plain_literal|].
    now apply identifier_no_backslash. }
  rewrite (re_sub_first_match _ _ _ _ _ _ _ _ Hc (expand_template_plain _ Ht) Hs).
  now rewrite <- !app_assoc.
Qed.

Lemma unused_var_const_declaration_witness :
  fix_unused_var (str "{" ++ NL :: str "    const   data = await f(data);") 2 (str "data")
  = Returned (str "{" ++ NL :: str "    const _data = await f(data);").
Proof.
  apply (unused_var_const_declaration
           (str "{" ++ NL :: str "    const   data = await f(data);") 2
           (str "data") (str "    ") (str "   ") (str " = await f(data);")).
  - reflexivity.
  - discriminate.
  - repeat constructor.
  - repeat constructor.
  - discriminate.
  - reflexivity.
  - reflexivity.
Defined.


(** * The files and [main] *)

(** ** Reading in text mode *)

Lemma universal_newlines_bounded n : forall s, (length s <= n)%nat ->
  no_cr (universal_newlines s).
Proof.
  induction n as [|n IH]; intros [|c s] Hn; simpl in Hn; try lia; try constructor.
  cbn [universal_newlines]. destruct (Ascii.eqb c CR) eqn:E.
  - constructor; [discriminate|].
    destruct s as [|c' s']; [constructor|].
    destruct (Ascii.eqb c' NL); apply IH; simpl in *; lia.
  - constructor; [now apply Ascii.eqb_neq in E|]. apply IH. lia.
Qed.

Lemma universal_newlines_no_cr s : no_cr (universal_newlines s).
Proof. now apply (universal_newlines_bounded (length s)). Qed.

Lemma universal_newlines_id s : no_cr s -> universal_newlines s = s.
Proof.
  induction 1 as [|c s Hc _ IH]; [reflexivity|].
  cbn [universal_newlines]. apply Ascii.eqb_neq in Hc. now rewrite Hc, IH.
Qed.

(** ** Characters that a rewrite does not bring in *)

Lemma split_lines_Forall (P : ascii -> Prop) content :
  Forall P content -> Forall (Forall P) (split_lines content).
Proof.
  induction 1 as [|c rest Hc _ IH]; [repeat constructor|].
  cbn [split_lines]. destruct (Ascii.eqb c NL); [now repeat constructor|].
  destruct (split_lines rest) as [|l ls]; [repeat constructor; assumption|].
  inversion IH; subst. constructor; [now constructor|assumption].
Qed.

Lemma join_lines_Forall (P : ascii -> Prop) lines :
  P NL -> Forall (Forall P) lines -> Forall P (join_lines lines).
Proof.
  intros HNL. induction 1 as [|l ls Hl Hls IH]; [constructor|].
  cbn [join_lines]. destruct ls as [|l' ls']; [assumption|].
  apply Forall_app. split; [assumption|]. now constructor.
Qed.

Lemma line_at_Forall (P : ascii -> Prop) lines line_num :
  Forall (Forall P) lines -> Forall P (line_at lines line_num).
Proof.
  intros H. unfold line_at.
  destruct (nth_in_or_default (Z.to_nat (line_num - 1)) lines []) as [Hin| ->];
    [|constructor].
  rewrite Forall_forall in H. apply H. now apply list_elem_of_In.
Qed.

Lemma on_target_Forall (P : ascii -> Prop) content line_num rule out :
  P NL -> Forall P content ->
  (forall line new, Forall P line -> rule line = Returned new -> Forall P new) ->
  on_target content line_num rule = Returned out -> Forall P out.
Proof.
  intros HNL Hc Hrule. unfold on_target.
  pose proof (split_lines_Forall P content Hc) as Hs.
  destruct (rule (line_at (split_lines content) line_num)) as [new| | |] eqn:E;
    try discriminate.
  cbn [bind]. intros [= <-]. apply join_lines_Forall; [assumption|].
  unfold set_line. apply Forall_insert; [assumption|].
  apply (Hrule _ _ (line_at_Forall P _ line_num Hs) E).
Qed.

Ltac cr_literal := unfold no_cr; plain_literal.

Lemma ident_char_not_cr c : ident_char c = true -> c <> CR.
Proof. intros H ->. discriminate H. Qed.

Lemma identifier_no_cr v : identifier v -> no_cr v.
Proof.
  induction v as [|c v IH]; intros Hv; [constructor|].
  apply identifier_cons in Hv as [Hc Hv].
  constructor; [now apply ident_char_not_cr | now apply IH].
Qed.

Lemma request_rule_no_cr line new :
  no_cr line -> first_match_rule 0 request_patterns line = Returned new -> no_cr new.
Proof.
  intros Hl. apply first_match_rule_Forall; [|assumption].
  unfold request_patterns.
  repeat (constructor; [cbn [snd]; apply literal_template; [plain_literal|cr_literal]|]).
  constructor.
Qed.

Lemma var_rule_no_cr var_name line new :
  identifier var_name -> no_cr line ->
  first_match_rule 1 (var_patterns var_name) line = Returned new -> no_cr new.
Proof.
  intros Hv Hl. apply first_match_rule_Forall; [|assumption].
  pose proof (identifier_no_cr _ Hv) as Hc.
  pose proof (identifier_no_backslash _ Hv) as Hb.
  unfold var_patterns.
  repeat (constructor;
          [cbn [snd]; apply plain_template_Forall;
           [unfold no_backslash in *; rewrite ?Forall_app; repeat split;
            try assumption; plain_literal
           |unfold no_cr in *; rewrite ?Forall_app; repeat split;
            try assumption; plain_literal]|]).
  constructor.
Qed.

Lemma explicit_any_rule_no_cr line new :
  no_cr line -> explicit_any_rule line = Returned new -> no_cr new.
Proof.
  unfold explicit_any_rule. intros Hl.
  destruct (re_sub _ _ line 0) as [l1| | |] eqn:E1; try discriminate. cbn [bind].
  destruct (re_sub _ _ l1 0) as [l2| | |] eqn:E2; try discriminate. cbn [bind].
  intros E3.
  apply (re_sub_Forall (fun c => c <> CR)) in E1;
    [|apply literal_template; plain_literal|assumption].
  apply (re_sub_Forall (fun c => c <> CR)) in E2;
    [|apply literal_template; plain_literal|assumption].
  apply (re_sub_Forall (fun c => c <> CR)) in E3;
    [assumption|apply literal_template; plain_literal|assumption].
Qed.

Lemma empty_object_rule_no_cr line new :
  no_cr line -> empty_object_rule line = Returned new -> no_cr new.
Proof.
  unfold empty_object_rule. intros Hl.
  destruct (re_sub _ _ line 0) as [l1| | |] eqn:E1; try discriminate. cbn [bind].
  intros E2.
  apply (re_sub_Forall (fun c => c <> CR)) in E1;
    [|apply literal_template; plain_literal|assumption].
  apply (re_sub_Forall (fun c => c <> CR)) in E2;
    [assumption|apply literal_template; plain_literal|assumption].
Qed.

Lemma unused_import_rule_no_cr import_name line new :
  no_cr line -> unused_import_rule import_name line = Returned new -> no_cr new.
Proof.
  intros Hl. unfold unused_import_rule.
  destruct (re_match _ line) as [[m|]| | |]; cbn [bind]; try discriminate.
  - intros [= <-]. constructor.
  - destruct (re_sub _ [] line 0) as [l1| | |] eqn:E1; try discriminate. cbn [bind].
    destruct (re_sub _ _ l1 0) as [l2| | |] eqn:E2; try discriminate. cbn [bind].
    destruct (re_sub _ _ l2 0) as [l3| | |] eqn:E3; try discriminate. cbn [bind].
    intros E4.
    apply (re_sub_Forall (fun c => c <> CR)) in E1;
      [|intros t [= <-]; constructor|assumption].
    apply (re_sub_Forall (fun c => c <> CR)) in E2;
      [|apply literal_template; plain_literal|assumption].
    apply (re_sub_Forall (fun c => c <> CR)) in E3;
      [|apply literal_template; plain_literal|assumption].
    apply (re_sub_Forall (fun c => c <> CR)) in E4;
      [assumption|apply literal_template; plain_literal|assumption].
Qed.

(** A carriage return is never brought into a document by a fix. *)
Lemma apply_no_cr fix_type content line_num detail out :
  (uses_detail fix_type = true -> identifier detail) ->
  no_cr content ->
  apply fix_type content line_num detail = Returned out -> no_cr out.
Proof.
  intros Hd Hc.
  destruct (in_bounds line_num (split_lines content)) eqn:Hb.
  2:{ rewrite apply_out_of_bounds by assumption. now intros [= <-]. }
  unfold apply. unfold uses_detail in Hd.
  assert (HNL : NL <> CR) by discriminate.
  destruct (text_eqb fix_type (str "unused_param")).
  { rewrite fix_unused_request_param_on_target by assumption.
    apply on_target_Forall; try assumption. apply request_rule_no_cr. }
  destruct (text_eqb fix_type (str "unused_var")).
  { rewrite fix_unused_var_on_target by assumption.
    apply on_target_Forall; try assumption.
    intros line new. apply var_rule_no_cr. now apply Hd. }
  destruct (text_eqb fix_type (str "explicit_any")).
  { rewrite fix_explicit_any_on_target by assumption.
    apply on_target_Forall; try assumption. apply explicit_any_rule_no_cr. }
  destruct (text_eqb fix_type (str "empty_object")).
  { rewrite fix_empty_object_type_on_target by assumption.
    apply on_target_Forall; try assumption. apply empty_object_rule_no_cr. }
  destruct (text_eqb fix_type (str "unused_import")).
  { rewrite remove_unused_import_on_target by assumption.
    apply on_target_Forall; try assumption. apply unused_import_rule_no_cr. }
  now intros [= <-].
Qed.

Lemma apply_returns fix_type content line_num detail :
  (uses_detail fix_type = true -> identifier detail) ->
  exists out, apply fix_type content line_num detail = Returned out.
Proof.
  intros Hd. destruct (in_bounds line_num (split_lines content)) eqn:Hb.
  - destruct (apply_in_bounds fix_type content line_num detail Hd Hb) as (new & _ & ->).
    eexists; reflexivity.
  - rewrite apply_out_of_bounds by assumption. eexists; reflexivity.
Qed.

Lemma apply_keeps_lines fix_type content line_num detail out :
  (uses_detail fix_type = true -> identifier detail) ->
  apply fix_type content line_num detail = Returned out ->
  line_count out = line_count content /\
  (forall k, k <> line_num -> doc_line out k = doc_line content k).
Proof.
  intros Hd. destruct (in_bounds line_num (split_lines content)) eqn:Hb.
  - destruct (apply_in_bounds fix_type content line_num detail Hd Hb) as (new & Hnl & ->).
    intros [= <-]. split; [now apply line_count_rewritten|].
    intros k Hk. now apply doc_line_rewritten_other.
  - rewrite apply_out_of_bounds by assumption. intros [= <-]. now split.
Qed.

(** ** One entry of the catalogue *)

Lemma process_fix_cases locate e fp w :
  process_fix locate e fp w =
  let p := locate (file_path e) in
  let w1 := say (Line (fixing e)) w in
  if bool_decide (p ∈ out_of_reach w) then (Raises (OsError p), w)
  else
    match files w !! p with
    | None => (Returns fp, say (Line (str "File not found: " ++ p)) w)
    | Some f =>
        match readable f, stored f with
        | true, Some t =>
            match apply (fix_type e) (universal_newlines t) (line_num e) (detail e) with
            | Returned out =>
                match writable f with
                | Writes => (Returns ({[file_path e]} ∪ fp), put p f (Some out) w1)
                | Refused => (Returns fp, say (ErrorWriting p) w1)
                | Breaks remains => (Returns fp, say (ErrorWriting p) (put p f remains w1))
                end
            | Raised err => (Raises (ReError err), w1)
            | Unsupported => (Outside, w1)
            | OutOfFuel => (Outside, w1)
            end
        | _, _ => (Returns fp, say (ErrorReading p) w)
        end
    end.
Proof.
  unfold process_fix, bind_prog, path_exists, read_file, text_of, write_file, print, call,
    ret.
  cbv beta zeta. destruct (bool_decide (locate (file_path e) ∈ out_of_reach w)) eqn:R;
    [reflexivity|].
  destruct (files w !! locate (file_path e)) as [f|] eqn:E.
  2:{ rewrite bool_decide_eq_false_2 by (intros [? ?]; discriminate). reflexivity. }
  rewrite bool_decide_eq_true_2 by eauto.
  cbv beta iota zeta delta [negb]. rewrite R, E.
  destruct f as [r wr s]. cbv beta iota delta [readable writable stored].
  destruct r; [|reflexivity]. destruct s as [t|]; [|reflexivity].
  cbv beta iota.
  destruct (apply (fix_type e) (universal_newlines t) (line_num e) (detail e)) eqn:A;
    try reflexivity.
  cbv beta iota.
  change (out_of_reach (say (Line (fixing e)) w)) with (out_of_reach w).
  change (files (say (Line (fixing e)) w)) with (files w). rewrite R, E.
  now destruct wr.
Qed.

Lemma kept_or_rewritten_refl o (reason : Prop) : kept_or_rewritten o o reason.
Proof. destruct o as [f|]; simpl; [|exact I]. repeat split; congruence. Qed.

Lemma kept_or_rewritten_trans o1 o2 o3 (r1 r2 r : Prop) :
  (r1 -> r) -> (r2 -> r) ->
  kept_or_rewritten o1 o2 r1 -> kept_or_rewritten o2 o3 r2 -> kept_or_rewritten o1 o3 r.
Proof.
  intros H1 H2. destruct o1 as [f1|], o2 as [f2|], o3 as [f3|]; simpl; try tauto.
  intros (Hr1 & Hw1 & Hs1) (Hr2 & Hw2 & Hs2).
  split; [congruence|]. split; [congruence|]. intros Hne.
  destruct (decide (stored f2 = stored f1)) as [E|E].
  - assert (E' : stored f3 <> stored f2) by congruence.
    destruct (Hs2 E') as ([Hc1 Hc2] & Hw & Hr). repeat split; auto; congruence.
  - destruct (Hs1 E) as (Hc & Hw & Hr). auto.
Qed.

Lemma process_fix_frame locate e fp w o w' :
  process_fix locate e fp w = (o, w') ->
  printed w `prefix_of` printed w' /\
  out_of_reach w' = out_of_reach w /\
  forall p, kept_or_rewritten (files w !! p) (files w' !! p) (locate (file_path e) = p).
Proof.
  rewrite process_fix_cases. cbv zeta.
  assert (Hsame : forall out, printed w `prefix_of` printed w ++ out)
    by (intros out; now apply prefix_app_r).
  assert (Hkeep : forall (o : ending (gset text)) w1,
            files w1 = files w -> out_of_reach w1 = out_of_reach w ->
            printed w `prefix_of` printed w1 ->
            (o, w1) = (o, w1) ->
            printed w `prefix_of` printed w1 /\
            out_of_reach w1 = out_of_reach w /\
            forall p, kept_or_rewritten (files w !! p) (files w1 !! p)
                        (locate (file_path e) = p)).
  { intros o1 w1 Hf Hr Hp _. split; [exact Hp|]. split; [exact Hr|].
    intros p. rewrite Hf. apply kept_or_rewritten_refl. }
  destruct (bool_decide _).
  { intros [= <- <-]. now apply (Hkeep (Raises (OsError (locate (file_path e)))) w). }
  destruct (files w !! locate (file_path e)) as [f|] eqn:E.
  2:{ intros [= <- <-]. apply (Hkeep (Returns fp)); try reflexivity. apply Hsame. }
  destruct (readable f) eqn:Hr.
  2:{ intros [= <- <-]. apply (Hkeep (Returns fp)); try reflexivity. apply Hsame. }
  destruct (stored f) as [t|] eqn:Hs.
  2:{ intros [= <- <-]. apply (Hkeep (Returns fp)); try reflexivity. apply Hsame. }
  assert (Hput : writable f <> Refused -> forall content log,
            printed w `prefix_of` (printed w ++ [Line (fixing e)]) ++ log /\
            forall p,
              kept_or_rewritten (files w !! p)
                (<[locate (file_path e) := File (readable f) (writable f) content]> (files w) !! p)
                (locate (file_path e) = p)).
  { intros Hw content log. split; [rewrite <- app_assoc; apply Hsame|].
    intros p. destruct (decide (locate (file_path e) = p)) as [<-|Hne].
    - rewrite lookup_insert_eq, E. simpl. repeat split; try congruence.
      now rewrite Hs.
    - rewrite lookup_insert_ne by assumption. apply kept_or_rewritten_refl. }
  destruct (apply _ _ _ _) as [out| | |];
    try (intros [= <- <-]; apply (Hkeep (Raises (ReError MissingParen))); try reflexivity;
         apply Hsame).
  destruct (writable f) eqn:Hw.
  - intros [= <- <-]. cbn [put say printed files out_of_reach].
    destruct (Hput ltac:(discriminate) (Some out) []) as [Hp Hk]. rewrite app_nil_r in Hp.
    rewrite Hw. now repeat split.
  - intros [= <- <-]. cbn [say printed files out_of_reach].
    split; [rewrite <- app_assoc; apply Hsame|]. split; [reflexivity|].
    intros p. apply kept_or_rewritten_refl.
  - intros [= <- <-]. cbn [put say printed files out_of_reach].
    destruct (Hput ltac:(discriminate) remains [ErrorWriting (locate (file_path e))])
      as [Hp Hk].
    rewrite Hw. now repeat split.
Qed.

(** ** The loop *)

(** X8 (the loop of [main]).  Whatever the catalogue and however the
    run ends, also when a rule or [Path.exists] raises: no file is
    created or removed, a file keeps its permissions, and a file whose
    content has changed could be read and opened for writing and is the
    file of an entry of the catalogue.  What was printed before is
    still there. *)
Theorem process_touches_catalogue_only (locate : text -> text) (fixes : list entry)
    (files_processed : gset text) (w : world) (o : ending (gset text)) (w' : world) :
  process locate fixes files_processed w = (o, w') ->
  printed w `prefix_of` printed w' /\
  forall p, kept_or_rewritten (files w !! p) (files w' !! p)
              (exists e, e ∈ fixes /\ locate (file_path e) = p).
Proof.
  revert files_processed w. induction fixes as [|e more IH]; intros fp w.
  - intros [= <- <-]. split; [reflexivity|]. intros p. apply kept_or_rewritten_refl.
  - cbn [process]. unfold bind_prog at 1.
    destruct (process_fix locate e fp w) as [o1 w1] eqn:E1.
    destruct (process_fix_frame _ _ _ _ _ _ E1) as (Hp1 & _ & Hk1).
    assert (Hhere : forall p, kept_or_rewritten (files w !! p) (files w1 !! p)
                      (exists e', e' ∈ e :: more /\ locate (file_path e') = p)).
    { intros p. eapply (kept_or_rewritten_trans _ _ _ _ False); [| |apply Hk1|].
      - intros <-. exists e. split; [left|reflexivity].
      - tauto.
      - apply kept_or_rewritten_refl. }
    destruct o1 as [fp1| |]; try (intros [= <- <-]; now split).
    intros E2. destruct (IH _ _ E2) as [Hp2 Hk2]. split; [now transitivity (printed w1)|].
    intros p. eapply kept_or_rewritten_trans; [| |apply Hk1|apply Hk2].
    + intros <-. exists e. split; [left|reflexivity].
    + intros (e' & He' & Hp). exists e'. split; [now right|assumption].
Qed.

Lemma print_files_spec names w :
  print_files names w
  = (Returns tt,
     World (files w) (out_of_reach w)
       (printed w ++ map (fun file => Line (str "  - " ++ file)) names)).
Proof.
  revert w. induction names as [|file more IH]; intros w.
  - cbn. rewrite app_nil_r. now destruct w.
  - cbn [print_files map]. unfold bind_prog, print, say. rewrite IH.
    cbn [files out_of_reach printed]. now rewrite <- app_assoc.
Qed.

Lemma summary_spec fp w :
  summary fp w
  = (Returns tt,
     World (files w) (out_of_reach w)
       (printed w
        ++ Line (NL :: str "Processed " ++ decimal (Z.of_nat (size fp)) ++ str " files")
        :: map (fun file => Line (str "  - " ++ file)) (sorted fp))).
Proof.
  unfold summary, bind_prog, print, say. rewrite print_files_spec.
  cbn [files out_of_reach printed]. now rewrite <- app_assoc.
Qed.

Lemma entries_for_other locate p e more :
  locate (file_path e) <> p ->
  entries_for locate p (e :: more) = entries_for locate p more.
Proof. intros H. unfold entries_for. now rewrite filter_cons_False. Qed.

Lemma entries_for_here locate e more :
  entries_for locate (locate (file_path e)) (e :: more)
  = e :: entries_for locate (locate (file_path e)) more.
Proof. unfold entries_for. now rewrite filter_cons_True. Qed.

Lemma rewritten_by_other locate e more p f after :
  locate (file_path e) <> p ->
  rewritten_by locate more p f after -> rewritten_by locate (e :: more) p f after.
Proof. intros H. unfold rewritten_by. now rewrite entries_for_other. Qed.

(** A file that cannot be read, or that refuses a write, stays. *)
Lemma rewritten_by_blocked locate fixes p f after :
  readable f = false \/ stored f = None \/ writable f = Refused ->
  rewritten_by locate fixes p f after <-> after = Some f.
Proof.
  intros H. unfold rewritten_by.
  destruct (entries_for locate p fixes) as [|e es]; [reflexivity|].
  destruct (readable f); [|reflexivity]. destruct (stored f); [|reflexivity].
  destruct (writable f); try reflexivity; destruct H as [H|[H|H]]; discriminate.
Qed.

(** A file whose writes break off holds, from its first broken write
    on, what such a write leaves. *)
Lemma rewritten_by_broken locate fixes p remains after :
  rewritten_by locate fixes p (File true (Breaks remains) remains) after
  <-> after = Some (File true (Breaks remains) remains).
Proof.
  unfold rewritten_by. destruct (entries_for locate p fixes) as [|e es]; [reflexivity|].
  cbn [readable stored writable]. now destruct remains.
Qed.

(** With an identifier where the rule reads the detail, the body of the
    loop returns, or [Path.exists] has raised. *)
Lemma process_fix_ends locate e fp w o w1 :
  (uses_detail (fix_type e) = true -> identifier (detail e)) ->
  process_fix locate e fp w = (o, w1) ->
  (exists fp1, o = Returns fp1 /\ locate (file_path e) ∉ out_of_reach w) \/
  (locate (file_path e) ∈ out_of_reach w /\
   o = Raises (OsError (locate (file_path e))) /\ w1 = w).
Proof.
  intros Hd. rewrite process_fix_cases. cbv zeta.
  destruct (bool_decide (locate (file_path e) ∈ out_of_reach w)) eqn:R.
  { apply bool_decide_eq_true in R. intros [= <- <-]. now right. }
  apply bool_decide_eq_false in R.
  destruct (files w !! locate (file_path e)) as [f|]; [|intros [= <- <-]; left; eauto].
  destruct (readable f); [|intros [= <- <-]; left; eauto].
  destruct (stored f) as [t|]; [|intros [= <- <-]; left; eauto].
  destruct (apply_returns (fix_type e) (universal_newlines t) (line_num e) (detail e) Hd)
    as [out ->].
  destruct (writable f); intros [= <- <-]; left; eauto.
Qed.

Lemma process_effect locate fixes : plain_details fixes -> forall fp w fp' w',
  process locate fixes fp w = (Returns fp', w') ->
  forall p f, files w !! p = Some f -> rewritten_by locate fixes p f (files w' !! p).
Proof.
  induction 1 as [|e more Hd _ IH]; intros fp w fp' w'.
  { intros [= <- <-] p f Hf. unfold rewritten_by. cbn. rewrite Hf.
    now destruct (readable f), (stored f). }
  cbn [process]. unfold bind_prog at 1. rewrite process_fix_cases. cbv zeta.
  destruct (bool_decide _); [discriminate|].
  destruct (files w !! locate (file_path e)) as [f0|] eqn:E0.
  2:{ intros Hrun p f Hf. apply rewritten_by_other; [congruence|].
      now apply (IH _ _ _ _ Hrun). }
  assert (Hblocked : forall fp1 w1,
            files w1 = files w ->
            readable f0 = false \/ stored f0 = None \/ writable f0 = Refused ->
            process locate more fp1 w1 = (Returns fp', w') ->
            forall p f, files w !! p = Some f ->
                        rewritten_by locate (e :: more) p f (files w' !! p)).
  { intros fp1 w1 Hsame Hb Hrun p f Hf. rewrite <- Hsame in Hf.
    specialize (IH _ _ _ _ Hrun p f Hf). rewrite Hsame in Hf.
    destruct (decide (locate (file_path e) = p)) as [<-|Hne].
    - assert (f = f0) as -> by congruence.
      apply rewritten_by_blocked; [assumption|]. now apply rewritten_by_blocked in IH.
    - now apply rewritten_by_other. }
  destruct (readable f0) eqn:Hr; [|now apply Hblocked; auto].
  destruct (stored f0) as [t|] eqn:Hs; [|now apply Hblocked; auto].
  destruct (apply_returns (fix_type e) (universal_newlines t) (line_num e) (detail e) Hd)
    as [out Hout].
  rewrite Hout. destruct (writable f0) eqn:Hw.
  - intros Hrun p f Hf.
    destruct (decide (locate (file_path e) = p)) as [<-|Hne].
    + assert (f = f0) as -> by congruence.
      specialize (IH _ _ _ _ Hrun (locate (file_path e)) (File true Writes (Some out))).
      cbn [put say files] in IH. rewrite lookup_insert_eq, Hr, Hw in IH.
      specialize (IH Logic.eq_refl).
      unfold rewritten_by in *. rewrite Hr, Hs, Hw.
      cbn [readable writable stored] in IH. rewrite entries_for_here.
      assert (Hid : universal_newlines out = out).
      { apply universal_newlines_id.
        exact (apply_no_cr _ _ _ _ _ Hd (universal_newlines_no_cr _) Hout). }
      rewrite Hid in IH. cbn [apply_all]. rewrite Hout. cbn [bind].
      destruct (entries_for locate (locate (file_path e)) more) as [|e1 es].
      * exists out. now split.
      * exact IH.
    + apply rewritten_by_other; [assumption|]. apply (IH _ _ _ _ Hrun).
      cbn [put say files]. now rewrite lookup_insert_ne.
  - apply Hblocked; auto.
  - intros Hrun p f Hf.
    destruct (decide (locate (file_path e) = p)) as [<-|Hne].
    + assert (f = f0) as -> by congruence.
      specialize (IH _ _ _ _ Hrun (locate (file_path e)) (File true (Breaks remains) remains)).
      cbn [put say files] in IH. rewrite lookup_insert_eq, Hr, Hw in IH.
      specialize (IH Logic.eq_refl). apply rewritten_by_broken in IH.
      unfold rewritten_by. now rewrite entries_for_here, Hr, Hs, Hw.
    + apply rewritten_by_other; [assumption|]. apply (IH _ _ _ _ Hrun).
      cbn [put say files]. now rewrite lookup_insert_ne.
Qed.

Lemma process_returns locate fixes : plain_details fixes -> forall fp w,
  in_reach locate fixes w ->
  exists fp' w', process locate fixes fp w = (Returns fp', w').
Proof.
  induction 1 as [|e more Hd _ IH]; intros fp w Hreach; [now exists fp, w|].
  cbn [process]. unfold bind_prog at 1.
  destruct (process_fix locate e fp w) as [o1 w1] eqn:E1.
  destruct (process_fix_frame _ _ _ _ _ _ E1) as (_ & Hout & _).
  destruct (process_fix_ends _ _ _ _ _ _ Hd E1) as [(fp1 & -> & _)|(Hin & _)].
  - apply IH. intros e' He'. rewrite Hout. apply Hreach. now right.
  - exfalso. apply (Hreach e); [left|assumption].
Qed.

Lemma process_keeps_missing locate fixes p : forall w, files w !! p = None ->
  forall fp o w', process locate fixes fp w = (o, w') -> files w' !! p = None.
Proof.
  induction fixes as [|e more IH]; intros w Hp fp o w'.
  - now intros [= <- <-].
  - cbn [process]. unfold bind_prog at 1.
    destruct (process_fix locate e fp w) as [o1 w1] eqn:E1.
    destruct (process_fix_frame _ _ _ _ _ _ E1) as (_ & _ & Hk). specialize (Hk p).
    rewrite Hp in Hk. simpl in Hk.
    assert (H1 : files w1 !! p = None) by now destruct (files w1 !! p).
    destruct o1 as [fp1| |]; try (now intros [= <- <-]).
    now apply IH.
Qed.

(** X9 ([main], for any catalogue).  With a catalogue whose details
    are identifiers where a rule reads them, on a file system that
    answers for the paths of the catalogue, the run returns, and what it
    leaves under each path is known.  A file that can be read and has
    entries in the catalogue holds, where its writes succeed, the result
    of its fixes, applied in the order of the catalogue to the text as
    it is read, each fix to the result of the one before; where its
    writes break off, it holds what a broken write leaves.  Every other
    file is as it was, and no file is created. *)
Theorem run_effect (locate : text -> text) (fixes : list entry) (w : world) :
  plain_details fixes -> in_reach locate fixes w ->
  exists w',
    run locate fixes w = (Returns tt, w') /\
    forall p,
      match files w !! p with
      | Some f => rewritten_by locate fixes p f (files w' !! p)
      | None => files w' !! p = None
      end.
Proof.
  intros Hpl Hreach.
  destruct (process_returns locate fixes Hpl ∅ w Hreach) as (fp' & w' & Hrun).
  unfold run, bind_prog. rewrite Hrun, summary_spec.
  eexists. split; [reflexivity|]. cbn [files]. intros p.
  destruct (files w !! p) as [f|] eqn:E.
  - now apply (process_effect locate fixes Hpl _ _ _ _ Hrun).
  - exact (process_keeps_missing _ _ _ _ E _ _ _ Hrun).
Qed.

Lemma fixes_plain_details : plain_details fixes.
Proof.
  unfold plain_details, fixes. repeat (constructor; [intros _; reflexivity|]).
  constructor.
Qed.

Lemma run_effect_witness :
  exists w',
    run example_dir example_fixes example_world = (Returns tt, w') /\
    forall p,
      match files example_world !! p with
      | Some f => rewritten_by example_dir example_fixes p f (files w' !! p)
      | None => files w' !! p = None
      end.
Proof.
  apply (run_effect example_dir example_fixes example_world).
  - unfold plain_details, example_fixes. repeat (constructor; [intros _; reflexivity|]).
    constructor.
  - intros e _. vm_compute. discriminate.
Defined.

(** ** Lines *)

Lemma apply_all_keeps_lines es : plain_details es -> forall content out,
  apply_all es content = Returned out ->
  line_count out = line_count content /\
  (forall k, (forall e, e ∈ es -> line_num e <> k) -> doc_line out k = doc_line content k).
Proof.
  induction 1 as [|e more Hd _ IH]; intros content out.
  - intros [= <-]. now split.
  - cbn [apply_all].
    destruct (apply (fix_type e) content (line_num e) (detail e)) as [c1| | |] eqn:E1;
      try discriminate.
    cbn [bind]. intros E2. destruct (IH _ _ E2) as [Hc Hl].
    destruct (apply_keeps_lines _ _ _ _ _ Hd E1) as [Hc1 Hl1].
    split; [congruence|]. intros k Hk. rewrite Hl, Hl1; [reflexivity| |].
    + intros ->. apply (Hk e); [left|reflexivity].
    + intros e' He'. apply Hk. now right.
Qed.

Lemma apply_all_no_cr es : plain_details es -> forall content out,
  no_cr content -> apply_all es content = Returned out -> no_cr out.
Proof.
  induction 1 as [|e more Hd _ IH]; intros content out Hc.
  - now intros [= <-].
  - cbn [apply_all].
    destruct (apply (fix_type e) content (line_num e) (detail e)) as [c1| | |] eqn:E1;
      try discriminate.
    cbn [bind]. apply IH. exact (apply_no_cr _ _ _ _ _ Hd Hc E1).
Qed.

Lemma plain_details_entries_for locate p fixes :
  plain_details fixes -> plain_details (entries_for locate p fixes).
Proof.
  unfold plain_details, entries_for. rewrite !Forall_forall. intros H e He.
  apply list_elem_of_filter in He as [_ He]. now apply H.
Qed.

Lemma rewritten_lines locate fixes p f after :
  plain_details fixes -> rewritten_by locate fixes p f after ->
  exists f', after = Some f' /\ lines_kept locate fixes p f f'.
Proof.
  intros Hpl. unfold rewritten_by, lines_kept.
  pose proof (plain_details_entries_for locate p fixes Hpl) as Hes.
  assert (Hin : forall e, e ∈ entries_for locate p fixes ->
                  e ∈ fixes /\ locate (file_path e) = p).
  { intros e He. apply list_elem_of_filter in He. tauto. }
  destruct (entries_for locate p fixes) as [|e es]; [eauto|].
  destruct (readable f); [|eauto]. destruct (stored f) as [t|]; [|eauto].
  destruct (writable f) as [| |remains] eqn:Hw; [|eauto|].
  - intros (out & Hout & ->). eexists. split; [reflexivity|]. right. right.
    exists t, out. split; [reflexivity|]. split; [reflexivity|].
    destruct (apply_all_keeps_lines _ Hes _ _ Hout) as [Hc Hl].
    split; [exact (apply_all_no_cr _ Hes _ _ (universal_newlines_no_cr _) Hout)|].
    split; [exact Hc|]. intros k Hk. apply Hl. intros e' He'.
    destruct (Hin e' He') as [H1 H2]. now apply Hk.
  - intros ->. eexists. split; [reflexivity|]. right. left. now exists remains.
Qed.

Lemma lines_kept_more locate before fixes p f f' :
  (forall e, e ∈ before -> e ∈ fixes) ->
  lines_kept locate before p f f' -> lines_kept locate fixes p f f'.
Proof.
  intros Hsub [H|[H|(t & out & Hs & Hf & Hcr & Hc & Hl)]]; [now left|now right; left|].
  right. right. exists t, out. repeat split; try assumption.
  intros k Hk. apply Hl. intros e He. apply Hk. now apply Hsub.
Qed.

(** A run of the loop with plain details returns, or it ends at the
    first entry for whose path [Path.exists] raises. *)
Lemma process_ends locate fixes : plain_details fixes -> forall fp w o w',
  process locate fixes fp w = (o, w') ->
  (exists fp', o = Returns fp') \/
  (exists before e after fp1,
     fixes = before ++ e :: after /\
     process locate before fp w = (Returns fp1, w') /\
     locate (file_path e) ∈ out_of_reach w /\
     o = Raises (OsError (locate (file_path e)))).
Proof.
  induction 1 as [|e more Hd _ IH]; intros fp w o w'.
  - intros [= <- <-]. left. now exists fp.
  - cbn [process]. unfold bind_prog at 1.
    destruct (process_fix locate e fp w) as [o1 w1] eqn:E1.
    destruct (process_fix_frame _ _ _ _ _ _ E1) as (_ & Hout & _).
    destruct (process_fix_ends _ _ _ _ _ _ Hd E1) as [(fp1 & -> & _)|(Hin & -> & ->)].
    + intros E2. destruct (IH _ _ _ _ E2)
        as [Hret|(before & e' & after & fp2 & -> & Hb & Hin & ->)]; [now left|].
      right. exists (e :: before), e', after, fp2. split; [reflexivity|].
      split; [|split; [now rewrite <- Hout|reflexivity]].
      cbn [process]. unfold bind_prog at 1. now rewrite E1.
    + intros [= <- <-]. right. exists [], e, more, fp. now repeat split.
Qed.

Lemma run_keeps_lines locate fixes w :
  plain_details fixes ->
  exists o w',
    run locate fixes w = (o, w') /\
    (o = Returns tt \/
     exists e, e ∈ fixes /\ locate (file_path e) ∈ out_of_reach w /\
               o = Raises (OsError (locate (file_path e)))) /\
    forall p f, files w !! p = Some f ->
      exists f', files w' !! p = Some f' /\ lines_kept locate fixes p f f'.
Proof.
  intros Hpl. unfold run, bind_prog.
  destruct (process locate fixes ∅ w) as [o1 w1] eqn:E.
  destruct (process_ends locate fixes Hpl _ _ _ _ E)
    as [[fp' ->]|(before & e & after & fp1 & -> & Hb & Hin & ->)].
  - rewrite summary_spec. eexists _, _. split; [reflexivity|]. split; [now left|].
    cbn [files]. intros p f Hf. apply rewritten_lines; [assumption|].
    now apply (process_effect locate fixes Hpl _ _ _ _ E).
  - eexists _, _. split; [reflexivity|]. split.
    { right. exists e. split; [|now split]. apply elem_of_app. right. left. }
    unfold plain_details in Hpl. apply Forall_app in Hpl as [Hpl _].
    intros p f Hf.
    destruct (rewritten_lines locate before p f (files w1 !! p) Hpl) as (f' & Hf' & Hl).
    { now apply (process_effect locate before Hpl _ _ _ _ Hb). }
    exists f'. split; [exact Hf'|].
    apply (lines_kept_more locate before); [|exact Hl].
    intros e' He'. apply elem_of_app. now left.
Qed.

(** X10 ([main] with its catalogue).  No rule raises, since the
    details of the catalogue are identifiers: [main] returns, or it
    ends with the [OSError] of [Path.exists] for a path of its
    catalogue.  In both cases every file is as it was; or its writes
    break off; or it holds its text as it is read (line ends as
    newlines) with as many lines as that, without a carriage return,
    and with every line as it is read but those whose numbers the
    catalogue lists for the file. *)
Theorem main_keeps_lines (w : world) :
  exists o w',
    main w = (o, w') /\
    (o = Returns tt \/
     exists e, e ∈ fixes /\ full_path (file_path e) ∈ out_of_reach w /\
               o = Raises (OsError (full_path (file_path e)))) /\
    forall p f, files w !! p = Some f ->
      exists f', files w' !! p = Some f' /\ lines_kept full_path fixes p f f'.
Proof. exact (run_keeps_lines full_path fixes w fixes_plain_details). Qed.

(** ** The summary *)

Lemma text_leb_total a : forall b, text_leb a b = true \/ text_leb b a = true.
Proof.
  induction a as [|x a IH]; intros [|y b]; cbn [text_leb]; auto.
  destruct (Nat.lt_total (code x) (code y)) as [H|[H|H]].
  - left. apply Nat.ltb_lt in H. now rewrite H.
  - destruct (IH b) as [E|E]; [left|right]; rewrite H, Nat.eqb_refl, E;
      apply orb_true_r.
  - right. apply Nat.ltb_lt in H. now rewrite H.
Qed.

Lemma text_leb_trans a : forall b c,
  text_leb a b = true -> text_leb b c = true -> text_leb a c = true.
Proof.
  induction a as [|x a IH]; intros [|y b] [|z c]; cbn [text_leb]; try easy.
  rewrite !orb_true_iff, !andb_true_iff, !Nat.ltb_lt, !Nat.eqb_eq.
  intros [H1|[H1 E1]] [H2|[H2 E2]].
  - left. lia.
  - left. lia.
  - left. lia.
  - right. split; [lia|]. now apply (IH b).
Qed.

#[local] Instance text_le_total : Total text_le.
Proof. intros a b. apply text_leb_total. Qed.

#[local] Instance text_le_trans : Transitive text_le.
Proof. intros a b c. apply text_leb_trans. Qed.

Lemma process_fix_usable locate e fp w o w1 :
  process_fix locate e fp w = (o, w1) -> forall p, usable w1 p <-> usable w p.
Proof.
  rewrite process_fix_cases. cbv zeta. unfold usable.
  destruct (bool_decide _); [now intros [= <- <-]|].
  destruct (files w !! locate (file_path e)) as [f|] eqn:E; [|now intros [= <- <-]].
  destruct (readable f) eqn:Hr; [|now intros [= <- <-]].
  destruct (stored f) as [t|] eqn:Hs; [|now intros [= <- <-]].
  destruct (apply _ _ _ _) as [out| | |]; try (now intros [= <- <-]).
  destruct (writable f) eqn:Hw.
  - intros [= <- <-] p. cbn [files put say].
    destruct (decide (locate (file_path e) = p)) as [<-|Hne].
    + rewrite lookup_insert_eq, E. unfold can_read.
      split; intros (g & [= <-] & [H1 H2] & H3); cbn [readable writable stored] in *;
        eexists; (split; [reflexivity|]); cbn [readable writable stored];
        rewrite ?Hs; repeat split; eauto.
    + now rewrite lookup_insert_ne.
  - now intros [= <- <-].
  - intros [= <- <-] p. cbn [files put say].
    destruct (decide (locate (file_path e) = p)) as [<-|Hne].
    + rewrite lookup_insert_eq, E.
      split; intros (g & [= <-] & _ & H3); cbn [writable] in H3; congruence.
    + now rewrite lookup_insert_ne.
Qed.

Lemma process_fix_processed locate e fp w fp1 w1 :
  process_fix locate e fp w = (Returns fp1, w1) ->
  forall name, name ∈ fp1 <->
    name ∈ fp \/ (file_path e = name /\ usable w (locate name)).
Proof.
  rewrite process_fix_cases. cbv zeta. unfold usable, can_read.
  destruct (bool_decide _); [discriminate|].
  destruct (files w !! locate (file_path e)) as [f|] eqn:E.
  2:{ intros [= <- <-] name. split; [auto|]. intros [H|[<- (g & Hg & _)]]; congruence. }
  destruct (readable f) eqn:Hr.
  2:{ intros [= <- <-] name. split; [auto|].
      intros [H|[<- (g & Hg & [Hr' _] & _)]]; congruence. }
  destruct (stored f) as [t|] eqn:Hs.
  2:{ intros [= <- <-] name. split; [auto|].
      intros [H|[<- (g & Hg & [_ [t Ht]] & _)]]; congruence. }
  destruct (apply _ _ _ _) as [out| | |]; try discriminate.
  destruct (writable f) eqn:Hw.
  - intros [= <- <-] name. rewrite elem_of_union, elem_of_singleton. split.
    + intros [->|H]; [right|now left]. split; [reflexivity|]. exists f.
      rewrite Hs. repeat split; eauto.
    + intros [H|[<- _]]; auto.
  - intros [= <- <-] name. split; [auto|].
    intros [H|[<- (g & Hg & _ & Hw')]]; congruence.
  - intros [= <- <-] name. split; [auto|].
    intros [H|[<- (g & Hg & _ & Hw')]]; congruence.
Qed.

Lemma process_processed locate fixes : forall fp w fp' w',
  process locate fixes fp w = (Returns fp', w') ->
  forall name, name ∈ fp' <->
    name ∈ fp \/ exists e, e ∈ fixes /\ file_path e = name /\ usable w (locate name).
Proof.
  induction fixes as [|e more IH]; intros fp w fp' w'.
  - intros [= <- <-] name. split; [auto|]. intros [H|(e & He & _)]; [assumption|].
    now apply elem_of_nil in He.
  - cbn [process]. unfold bind_prog at 1.
    destruct (process_fix locate e fp w) as [o1 w1] eqn:E1.
    destruct o1 as [fp1| |]; try discriminate.
    intros E2 name. rewrite (IH _ _ _ _ E2 name), (process_fix_processed _ _ _ _ _ _ E1 name).
    pose proof (process_fix_usable _ _ _ _ _ _ E1 (locate name)) as Hu.
    split.
    + intros [[H|[H1 H2]]|(e' & He' & H1 & H2)]; [now left| |].
      * right. exists e. split; [left|]. now split.
      * right. exists e'. split; [now right|]. split; [assumption|]. now apply Hu.
    + intros [H|(e' & He' & H1 & H2)]; [now left; left|].
      apply elem_of_cons in He' as [->|He'].
      * left. right. now split.
      * right. exists e'. split; [assumption|]. split; [assumption|]. now apply Hu.
Qed.

Lemma process_prints_on locate fixes : forall fp w o w',
  process locate fixes fp w = (o, w') -> exists log, printed w' = printed w ++ log.
Proof.
  induction fixes as [|e more IH]; intros fp w o w'.
  - intros [= <- <-]. exists []. now rewrite app_nil_r.
  - cbn [process]. unfold bind_prog at 1.
    destruct (process_fix locate e fp w) as [o1 w1] eqn:E1.
    destruct (process_fix_frame _ _ _ _ _ _ E1) as ([log1 H1] & _).
    destruct o1 as [fp1| |]; try (intros [= <- <-]; now exists log1).
    intros E2. destruct (IH _ _ _ _ E2) as [log2 H2]. exists (log1 ++ log2).
    now rewrite H2, H1, app_assoc.
Qed.

(** X11 (the summary of [main], for any catalogue).  When the run
    returns, its output ends with the count and the names of the
    processed files in ascending order, each once.  A name is listed
    when an entry of the catalogue has it and its file could be read and
    written, whether or not a line of the file was changed. *)
Theorem run_summary (locate : text -> text) (fixes : list entry) (w w' : world) :
  run locate fixes w = (Returns tt, w') ->
  exists log names,
    printed w'
    = printed w ++ log
      ++ Line (NL :: str "Processed " ++ decimal (Z.of_nat (length names)) ++ str " files")
      :: map (fun file => Line (str "  - " ++ file)) names /\
    StronglySorted text_le names /\ NoDup names /\
    forall name, name ∈ names <->
      exists e, e ∈ fixes /\ file_path e = name /\ usable w (locate name).
Proof.
  unfold run, bind_prog.
  destruct (process locate fixes ∅ w) as [o1 w1] eqn:E1.
  destruct o1 as [fp| |]; try discriminate.
  rewrite summary_spec. intros [= <-].
  destruct (process_prints_on _ _ _ _ _ _ E1) as [log Hlog].
  exists log, (sorted fp). cbn [printed]. unfold sorted.
  pose proof (merge_sort_Permutation text_le (elements fp)) as Hperm.
  repeat split.
  - rewrite Hlog, <- app_assoc. do 4 f_equal. unfold size, set_size. cbn.
    now rewrite Hperm.
  - apply (StronglySorted_merge_sort text_le); apply _.
  - rewrite Hperm. apply NoDup_elements.
  - rewrite Hperm, elem_of_elements, (process_processed _ _ _ _ _ _ E1 name).
    intros [H|H]; [now apply elem_of_empty in H|exact H].
  - intros H. rewrite Hperm, elem_of_elements, (process_processed _ _ _ _ _ _ E1 name).
    now right.
Qed.

(** ** A rule that raises *)

Lemma process_app locate before after : forall fp w,
  process locate (before ++ after) fp w
  = (fp1 <~ process locate before fp ;; process locate after fp1) w.
Proof.
  induction before as [|e more IH]; intros fp w; [reflexivity|].
  cbn [app process]. unfold bind_prog in *.
  destruct (process_fix locate e fp w) as [[fp1| |] w1]; try reflexivity.
  apply IH.
Qed.

(** X12 ([main], for any catalogue).  The call of a rule is not
    guarded: when the rule of an entry raises [re.error], the run ends
    with that exception after the line that announces the fix.  What
    the entries before it wrote stays written, the entries after it are
    not processed, and no summary is printed. *)
Theorem run_stops_at_raise (locate : text -> text) (before after : list entry)
    (e : entry) (w w1 : world) (files_processed : gset text) (f : file) (t : text)
    (err : re_error) :
  process locate before ∅ w = (Returns files_processed, w1) ->
  locate (file_path e) ∉ out_of_reach w1 ->
  files w1 !! locate (file_path e) = Some f -> readable f = true -> stored f = Some t ->
  apply (fix_type e) (universal_newlines t) (line_num e) (detail e) = Raised err ->
  run locate (before ++ e :: after) w
  = (Raises (ReError err), say (Line (fixing e)) w1).
Proof.
  intros Hb Hreach Hf Hr Hs Ha. unfold run. unfold bind_prog at 1. rewrite process_app.
  unfold bind_prog at 1. rewrite Hb. cbn [process]. unfold bind_prog at 1.
  rewrite process_fix_cases. cbv zeta.
  rewrite bool_decide_eq_false_2 by assumption. now rewrite Hf, Hr, Hs, Ha.
Qed.

(** ** A catalogue whose files are not there *)

Lemma process_nothing_found locate fixes : forall fp w,
  in_reach locate fixes w ->
  (forall e, e ∈ fixes -> files w !! locate (file_path e) = None) ->
  process locate fixes fp w
  = (Returns fp,
     World (files w) (out_of_reach w)
       (printed w
        ++ map (fun e => Line (str "File not found: " ++ locate (file_path e))) fixes)).
Proof.
  induction fixes as [|e more IH]; intros fp w Hreach Hnone.
  - cbn. rewrite app_nil_r. now destruct w.
  - cbn [process map]. unfold bind_prog at 1. rewrite process_fix_cases. cbv zeta.
    rewrite bool_decide_eq_false_2 by (apply Hreach; left).
    rewrite (Hnone e) by left. rewrite IH.
    + unfold say. cbn [files out_of_reach printed]. now rewrite <- app_assoc.
    + intros e' He'. cbn [say out_of_reach]. apply Hreach. now right.
    + intros e' He'. cbn [say files]. apply Hnone. now right.
Qed.

(** X13 ([main], for any catalogue).  Where [Path.exists] answers
    that there is nothing for every file of the catalogue, the run
    prints one line for each entry, then a summary of no file, and
    leaves the file system as it is. *)
Theorem run_nothing_found (locate : text -> text) (fixes : list entry) (w : world) :
  in_reach locate fixes w ->
  (forall e, e ∈ fixes -> files w !! locate (file_path e) = None) ->
  run locate fixes w
  = (Returns tt,
     World (files w) (out_of_reach w)
       (printed w
        ++ map (fun e => Line (str "File not found: " ++ locate (file_path e))) fixes
        ++ [Line (NL :: str "Processed 0 files")])).
Proof.
  intros Hreach Hnone. unfold run, bind_prog.
  rewrite (process_nothing_found locate fixes ∅ w Hreach Hnone), summary_spec.
  cbn [files out_of_reach printed]. unfold sorted. rewrite size_empty, elements_empty.
  cbn. now rewrite <- app_assoc.
Qed.

(** ** Writing and reading *)

(** X14 ([write_file], [read_file]).  A text without a carriage return
    that [write_file] has written to a file that can be read is what
    [read_file] returns from it, and neither call prints. *)
Theorem write_then_read (p content : text) (w w1 : world) (f : file) :
  files w !! p = Some f -> readable f = true -> no_cr content ->
  write_file p content w = (Returns true, w1) ->
  read_file p w1 = (Returns (Some content), w1) /\ printed w1 = printed w.
Proof.
  intros Hf Hr Hc. unfold write_file, read_file, text_of.
  destruct (bool_decide (p ∈ out_of_reach w)) eqn:R; [discriminate|].
  rewrite Hf. destruct (writable f); try discriminate.
  intros [= <-]. cbn [put files out_of_reach printed]. rewrite R, lookup_insert_eq.
  cbn [readable stored]. rewrite Hr, (universal_newlines_id _ Hc). now split.
Qed.

(** ** The example directory *)

Lemma process_touches_catalogue_only_witness :
  printed example_world `prefix_of` example_log /\
  forall p, kept_or_rewritten (files example_world !! p) (example_files !! p)
              (exists e, e ∈ example_fixes /\ example_dir (file_path e) = p).
Proof.
  apply (process_touches_catalogue_only example_dir example_fixes ∅ example_world
           (Returns {[str "a.ts"]}) (World example_files ∅ example_log)).
  vm_compute. reflexivity.
Defined.

Lemma run_summary_witness :
  exists log names,
    example_log ++ [Line (NL :: str "Processed 1 files"); Line (str "  - a.ts")]
    = printed example_world ++ log
      ++ Line (NL :: str "Processed " ++ decimal (Z.of_nat (length names)) ++ str " files")
      :: map (fun file => Line (str "  - " ++ file)) names /\
    StronglySorted text_le names /\ NoDup names /\
    forall name, name ∈ names <->
      exists e, e ∈ example_fixes /\ file_path e = name /\
                usable example_world (example_dir name).
Proof.
  apply (run_summary example_dir example_fixes example_world
           (World example_files ∅
              (example_log
               ++ [Line (NL :: str "Processed 1 files"); Line (str "  - a.ts")]))).
  vm_compute. reflexivity.
Defined.

Lemma run_stops_at_raise_witness :
  run example_dir
    ([Entry (str "a.ts") 1 (str "unused_param") (str "request")]
     ++ Entry (str "b.ts") 1 (str "unused_var") (str "(")
     :: [Entry (str "a.ts") 2 (str "explicit_any") []]) example_world
  = (Raises (ReError MissingParen),
     say (Line (fixing (Entry (str "b.ts") 1 (str "unused_var") (str "("))))
       (World (<[example_dir (str "a.ts") :=
                   File true Writes (Some (str "function f(_request: R) {" ++ [NL]
                                           ++ str "  return 1 as any;"))]>
                 (files example_world)) ∅
          [Line (str "Fixing a.ts:1 (unused_param: request)")])).
Proof.
  refine (run_stops_at_raise example_dir
           [Entry (str "a.ts") 1 (str "unused_param") (str "request")]
           [Entry (str "a.ts") 2 (str "explicit_any") []]
           (Entry (str "b.ts") 1 (str "unused_var") (str "("))
           example_world
           (World (<[example_dir (str "a.ts") :=
                       File true Writes (Some (str "function f(_request: R) {" ++ [NL]
                                               ++ str "  return 1 as any;"))]>
                     (files example_world)) ∅
              [Line (str "Fixing a.ts:1 (unused_param: request)")])
           {[str "a.ts"]} (File true Writes (Some (str "const x = 1;")))
           (str "const x = 1;") MissingParen _ _ _ _ _ _).
  - vm_compute. reflexivity.
  - vm_compute. discriminate.
  - vm_compute. reflexivity.
  - reflexivity.
  - reflexivity.
  - vm_compute. reflexivity.
Defined.

(** A run that meets a write that breaks off and a path for which the
    system does not answer: the file is left empty, and the run ends
    with the [OSError]. *)
Example run_with_faults :
  run example_dir example_fixes example_faults
  = (Raises (OsError (str "/app/d.ts")),
     World (<[example_dir (str "a.ts") := File true (Breaks (Some [])) (Some [])]> ∅)
       {[ example_dir (str "d.ts") ]}
       [ Line (str "Fixing a.ts:1 (unused_param: request)");
         ErrorWriting (str "/app/a.ts");
         Line (str "File not found: /app/c.ts") ]).
Proof. vm_compute. reflexivity. Qed.

Lemma run_nothing_found_witness :
  main (World ∅ ∅ [])
  = (Returns tt,
     World ∅ ∅
       ([] ++ map (fun e => Line (str "File not found: " ++ full_path (file_path e))) fixes
        ++ [Line (NL :: str "Processed 0 files")])).
Proof.
  apply (run_nothing_found full_path fixes (World ∅ ∅ [])).
  - intros e _. vm_compute. discriminate.
  - intros e _. reflexivity.
Defined.

Lemma write_then_read_witness :
  read_file (example_dir (str "b.ts"))
    (put (example_dir (str "b.ts")) (File true Writes (Some (str "const x = 1;")))
         (Some (str "const _x = 1;")) example_world)
  = (Returns (Some (str "const _x = 1;")),
     put (example_dir (str "b.ts")) (File true Writes (Some (str "const x = 1;")))
         (Some (str "const _x = 1;")) example_world) /\
  printed (put (example_dir (str "b.ts")) (File true Writes (Some (str "const x = 1;")))
               (Some (str "const _x = 1;")) example_world)
  = printed example_world.
Proof.
  apply (write_then_read (example_dir (str "b.ts")) (str "const _x = 1;") example_world
           (put (example_dir (str "b.ts")) (File true Writes (Some (str "const x = 1;")))
                (Some (str "const _x = 1;")) example_world)
           (File true Writes (Some (str "const x = 1;")))).
  - vm_compute. reflexivity.
  - reflexivity.
  - unfold no_cr. plain_literal.
  - vm_compute. reflexivity.
Defined.
